(** * gonja: render-time scope chain, registries, renderer and import statements

    A shallow embedding of [exec/renderer.go] (Renderer and Context),
    [exec/environment.go] (the three registries) and the import / from-import
    statements of package [statements].

    Go objects that are mutated through a reference (maps, [*Context],
    [*config.Config], [*strings.Builder]) live in explicit stores, a reference
    being an index into its store, so that aliasing is visible.  A function
    returns [None] where the Go code panics on an invalid reference or, for the
    recursive lookups, does not return.  [Renderer.Execute] and
    [Renderer.ExecuteWrapper] hand the renderer to [nodes.Walk] and are left
    to that package, as the parsers of the two statements are to [parser]. *)

From stdpp Require Import gmap strings list fin_maps.
From Stdlib Require Import ZArith Ascii.

Set Default Proof Using "Type".

(** ** Go runtime conventions *)

(** A reference (pointer or map handle): an index into the store of its type. *)
Abbreviation loc := nat (only parsing).

(** The order in which [for k, v := range m] visits a map is chosen by the Go
    runtime; it is some enumeration of the entries, each exactly once. *)
Record MapIter := {
  range : forall V : Type, gmap string V -> list (string * V);
  range_perm : forall (V : Type) (m : gmap string V), range V m ≡ₚ map_to_list m
}.
Arguments range _ {V} _.

(** Arguments handed to a [%d] / [%s] format verb. *)
Inductive fmtarg :=
  | ArgInt (n : Z)
  | ArgStr (s : string).

(** ** environment.go: the registries

    [FilterSet], [StatementSet] and [TestSet] are the same code over three
    capability types with three families of messages; the section is that code
    once, the instances follow it. *)

(** What [errors.Errorf] builds: the format and its arguments. *)
Inductive registry_error :=
  | RegErrorf (format : string) (args : list fmtarg).

(** The map objects of one registry type; a [FilterSet] value is a reference
    to one of them. *)
Abbreviation RegStore F := (list (gmap string F)).

Section Registry.
Context {F : Type}.
(** Format strings of the two failures of this registry. *)
Variable already_registered : string.
Variable does_not_exist : string.

Definition Exists (st : RegStore F) (fs : loc) (name : string) : option bool :=
  m ← st !! fs;
  Some (bool_decide (is_Some (m !! name))).

(** The assignment [fs[name] = fn] through the receiver. *)
Definition reg_assign (st : RegStore F) (fs : loc) (name : string) (fn : F)
  : option (RegStore F) :=
  m ← st !! fs;
  Some (<[fs := <[name := fn]> m]> st).

Definition Register (st : RegStore F) (fs : loc) (name : string) (fn : F)
  : option (RegStore F * option registry_error) :=
  existing ← Exists st fs name;
  if existing : bool then
    Some (st, Some (RegErrorf already_registered [ArgStr name]))
  else
    st' ← reg_assign st fs name fn;
    Some (st', None).

Definition Replace (st : RegStore F) (fs : loc) (name : string) (fn : F)
  : option (RegStore F * option registry_error) :=
  existing ← Exists st fs name;
  if negb existing : bool then
    Some (st, Some (RegErrorf does_not_exist [ArgStr name]))
  else
    st' ← reg_assign st fs name fn;
    Some (st', None).

(** The loop [for name, x := range other] assigning [fs[name] = x]. *)
Fixpoint reg_update_loop (fs : loc) (entries : list (string * F)) (st : RegStore F)
  : option (RegStore F) :=
  match entries with
  | [] => Some st
  | (name, x) :: rest =>
      st' ← reg_assign st fs name x;
      reg_update_loop fs rest st'
  end.

(** Returns the receiver's map. *)
Definition Update (it : MapIter) (st : RegStore F) (fs other : loc)
  : option (RegStore F * loc) :=
  mo ← st !! other;
  st' ← reg_update_loop fs (range it mo) st;
  Some (st', fs).
End Registry.


Definition FilterSet_Register {FilterFunction : Type} :=
  Register (F := FilterFunction) "filter with name '%s' is already registered".
Definition FilterSet_Replace {FilterFunction : Type} :=
  Replace (F := FilterFunction)
    "filter with name '%s' does not exist (therefore cannot be overridden)".
Definition FilterSet_Update {FilterFunction : Type} :=
  Update (F := FilterFunction).

Definition StatementSet_Register {StatementParser : Type} :=
  Register (F := StatementParser) "Statement '%s' is already registered".
Definition StatementSet_Replace {StatementParser : Type} :=
  Replace (F := StatementParser)
    "Statement '%s' does not exist (therefore cannot be overridden)".
Definition StatementSet_Update {StatementParser : Type} :=
  Update (F := StatementParser).

Definition TestSet_Register {TestFunction : Type} :=
  Register (F := TestFunction) "test with name '%s' is already registered".
Definition TestSet_Replace {TestFunction : Type} :=
  Replace (F := TestFunction)
    "test with name '%s' does not exist (therefore cannot be overridden)".
Definition TestSet_Update {TestFunction : Type} :=
  Update (F := TestFunction).

(** ** Types of the collaborators

    The packages [nodes], [loaders], [config], [tokens] and the parts of [exec]
    that are not modelled (values, templates, macros) are used through these
    types and, below, their operations. *)

Class Types := {
  Value : Type;            (* *exec.Value *)
  Expression : Type;       (* nodes.Expression *)
  MacroNode : Type;        (* *nodes.Macro *)
  Macro : Type;            (* exec.Macro *)
  Loader : Type;           (* loaders.Loader *)
  Template : Type;         (* *exec.Template *)
  TemplateNode : Type;     (* *nodes.Template *)
  StatementBlock : Type;   (* *nodes.StatementBlock *)
  Token : Type;            (* *tokens.Token *)
  SelfValue : Type;        (* what exec.Self returns *)
  Settings : Type;         (* the fields of config.Config besides AutoEscape *)
  Dynamic : Type           (* any other value held in an interface *)
}.

Section Model.
Context {T : Types}.

(** Go's [error]: a [*Value] used as one, [errors.New], [fmt.Errorf] or
    [errors.Errorf], and [errors.Wrap] / [errors.Wrapf]. *)
Inductive error :=
  | ValueError (v : Value)
  | ErrorNew (msg : string)
  | Errorf (format : string) (args : list errarg)
  | Wrap (cause : error) (message : string)
  | Wrapf (cause : error) (format : string) (args : list errarg)
with errarg :=
  | EInt (n : Z)
  | EStr (s : string)
  | ELoader (l : Loader)
  | EErr (e : error).

(** [interface{}]: the values a scope frame holds. *)
Inductive any :=
  | nil
  | AMacro (fn : Macro)
  | AMacros (macros : gmap string Macro)
  | ASelf (s : SelfValue)
  | ADynamic (d : Dynamic).

Record Config := {
  AutoEscape : bool;
  settings : Settings
}.

Record Context := {
  data : loc;            (* map[string]interface{} *)
  parent : option loc    (* *Context, None for nil *)
}.

Record Environment := {
  Filters : loc;         (* FilterSet *)
  Statements : loc;      (* StatementSet *)
  Tests : loc;           (* TestSet *)
  Env_Context : loc      (* *Context *)
}.

Record Renderer := {
  R_Config : loc;               (* *config.Config *)
  R_Environment : Environment;
  R_Loader : Loader;
  R_Template : Template;
  RootNode : TemplateNode;
  Output : loc                  (* *strings.Builder *)
}.

Record Evaluator := {
  E_Environment : Environment;
  E_Config : loc;
  E_Loader : Loader
}.

(** The mutable objects of one program state. *)
Record State := {
  frames : list (gmap string any);   (* the map objects of scope frames *)
  contexts : list Context;           (* Context structs *)
  configs : list Config;             (* config.Config structs *)
  builders : list string             (* strings.Builder contents *)
}.

Definition with_frames (st : State) (fs : list (gmap string any)) : State :=
  {| frames := fs; contexts := contexts st;
     configs := configs st; builders := builders st |}.
Definition with_contexts (st : State) (cs : list Context) : State :=
  {| frames := frames st; contexts := cs;
     configs := configs st; builders := builders st |}.
Definition with_configs (st : State) (cs : list Config) : State :=
  {| frames := frames st; contexts := contexts st;
     configs := cs; builders := builders st |}.
Definition with_builders (st : State) (bs : list string) : State :=
  {| frames := frames st; contexts := contexts st;
     configs := configs st; builders := bs |}.

(** *** renderer.go: Context *)

(** Allocation of a map object, [map[string]interface{}{}] or a literal. *)
Definition new_frame (st : State) (m : gmap string any) : State * loc :=
  (with_frames st (frames st ++ [m]), length (frames st)).

(** Allocation of a Context struct. *)
Definition new_context (st : State) (c : Context) : State * loc :=
  (with_contexts st (contexts st ++ [c]), length (contexts st)).

Definition NewContext (st : State) (data : loc) : State * loc :=
  new_context st {| data := data; parent := None |}.

Definition EmptyContext (st : State) : State * loc :=
  let '(st1, d) := new_frame st ∅ in
  new_context st1 {| data := d; parent := None |}.

(** The map object behind [ctx.data]. *)
Definition local_frame (st : State) (ctx : loc) : option (gmap string any) :=
  c ← contexts st !! ctx;
  frames st !! data c.

(** [Has] and [Get] recurse along [parent]; [fuel] bounds the depth, and the
    methods proper run with as much fuel as there are contexts, which every
    chain without a cycle stays within. *)
Fixpoint Has_fuel (fuel : nat) (st : State) (ctx : loc) (name : string)
  : option bool :=
  match fuel with
  | O => None
  | S fuel' =>
      c ← contexts st !! ctx;
      m ← frames st !! data c;
      let exists_ := bool_decide (is_Some (m !! name)) in
      match negb exists_, parent c with
      | true, Some p => Has_fuel fuel' st p name
      | _, _ => Some exists_
      end
  end.

Definition Context_Has (st : State) (ctx : loc) (name : string) : option bool :=
  Has_fuel (length (contexts st)) st ctx name.

Fixpoint Get_fuel (fuel : nat) (st : State) (ctx : loc) (name : string)
  : option (any * bool) :=
  match fuel with
  | O => None
  | S fuel' =>
      c ← contexts st !! ctx;
      m ← frames st !! data c;
      match m !! name with
      | Some value => Some (value, true)
      | None =>
          match parent c with
          | Some p => Get_fuel fuel' st p name
          | None => Some (nil, false)
          end
      end
  end.

Definition Context_Get (st : State) (ctx : loc) (name : string)
  : option (any * bool) :=
  Get_fuel (length (contexts st)) st ctx name.

(** [m[name] = value] on the map object [d]. *)
Definition frame_assign (st : State) (d : loc) (name : string) (value : any)
  : option State :=
  m ← frames st !! d;
  Some (with_frames st (<[d := <[name := value]> m]> (frames st))).

Definition Context_Set (st : State) (ctx : loc) (name : string) (value : any)
  : option State :=
  c ← contexts st !! ctx;
  frame_assign st (data c) name value.

Definition Context_Inherit (st : State) (ctx : loc) : State * loc :=
  let '(st1, d) := new_frame st ∅ in
  new_context st1 {| data := d; parent := Some ctx |}.

(** The loop of [Update]: [ctx.data[k] = v] for each entry in turn. *)
Fixpoint update_loop (ctx : loc) (entries : list (string * any)) (st : State)
  : option State :=
  match entries with
  | [] => Some st
  | (k, v) :: rest =>
      st' ← Context_Set st ctx k v;
      update_loop ctx rest st'
  end.

Definition Context_Update (it : MapIter) (st : State) (ctx other : loc)
  : option (State * loc) :=
  o ← contexts st !! other;
  mo ← frames st !! data o;
  st' ← update_loop ctx (range it mo) st;
  Some (st', ctx).

(** *** Operations of the collaborators *)

(** What a statement value offers once [n.Stmt.(Statement)] succeeded. *)
Record Statement := {
  Execute : MapIter -> Renderer -> StatementBlock -> State ->
            option (State * option error)
}.

(** The collaborators read the program state and do not write it: evaluating
    an expression, deriving a loader, loading a template and wrapping a macro
    bind no name and append nothing to the output. *)
Class Ops := {
  (* exec.Value *)
  IsError : Value -> bool;
  IsNil : Value -> bool;
  IsTrue : Value -> bool;
  IsString : Value -> bool;
  Safe : Value -> bool;
  Escaped : Value -> string;
  Value_String : Value -> string;
  (* exec.Evaluator *)
  Evaluator_Eval : State -> Evaluator -> Expression -> Value;
  (* nodes.Expression: Position().Line and String() *)
  Expression_Line : Expression -> Z;
  Expression_String : Expression -> string;
  (* nodes.StatementBlock: the assertion n.Stmt.(Statement), and
     n.Stmt.Position().Line and n.Stmt.String() *)
  Stmt_Statement : StatementBlock -> option Statement;
  Stmt_Line : StatementBlock -> Z;
  Stmt_String : StatementBlock -> string;
  (* loaders.Loader *)
  Loader_Inherit : Loader -> string -> Loader + error;
  (* exec.Template *)
  NewTemplate : State -> string -> loc -> Loader -> Environment -> Template + error;
  Template_root : Template -> TemplateNode;
  Template_parser_Loader : Template -> Loader;
  Template_Macros : Template -> gmap string MacroNode;
  (* exec.MacroNodeToFunc, its node possibly nil, and exec.Self *)
  MacroNodeToFunc : State -> option MacroNode -> Renderer -> Macro + error;
  Self : Renderer -> SelfValue
}.

Context {O : Ops}.

(** Modelled from the spec: [config.Config.Inherit], of package [config],
    which is not among the sources. The spec gives it as the deep-copy
    operation of the configuration: a new Config struct holding a copy of
    every setting of the receiver. *)
Definition Config_Inherit (st : State) (cfg : loc) : option (State * loc) :=
  c ← configs st !! cfg;
  Some (with_configs st (configs st ++ [c]), length (configs st)).

(** A store through a [*config.Config], as in [r.Config.AutoEscape = b]. *)
Definition Config_store (st : State) (cfg : loc) (c : Config) : State :=
  with_configs st (<[cfg := c]> (configs st)).

(** *** strings *)

Fixpoint in_cutset (c : Ascii.ascii) (cutset : string) : bool :=
  match cutset with
  | EmptyString => false
  | String c' rest => if Ascii.eqb c c' then true else in_cutset c rest
  end.

Fixpoint TrimLeft (s cutset : string) : string :=
  match s with
  | EmptyString => EmptyString
  | String c s' => if in_cutset c cutset then TrimLeft s' cutset else s
  end.

Definition TrimRight (s cutset : string) : string :=
  String.rev (TrimLeft (String.rev s) cutset).

(** The cutset of [Visit]: space, newline, tab. *)
Definition space_newline_tab : string :=
  String " "%char (String "010"%char (String "009"%char EmptyString)).

(** [b.WriteString(s)] on a [strings.Builder]; its error is always nil. *)
Definition WriteString (st : State) (b : loc) (s : string) : option State :=
  buf ← builders st !! b;
  Some (with_builders st (<[b := buf +:+ s]> (builders st))).

(** *** renderer.go: Renderer *)

Definition NewRenderer (st : State) (environment : Environment) (output : loc)
    (config : loc) (loader : Loader) (template : Template)
  : option (State * Renderer) :=
  '(st1, cfg) ← Config_Inherit st config;
  let r := {| R_Config := cfg;
              R_Environment := environment;
              R_Template := template;
              RootNode := Template_root template;
              Output := output;
              R_Loader := loader |} in
  st2 ← Context_Set st1 (Env_Context (R_Environment r)) "self" (ASelf (Self r));
  Some (st2, r).

Definition Renderer_Inherit (st : State) (r : Renderer) : option (State * Renderer) :=
  '(st1, cfg) ← Config_Inherit st (R_Config r);
  let '(st2, ctx) := Context_Inherit st1 (Env_Context (R_Environment r)) in
  Some (st2,
        {| R_Config := cfg;
           R_Environment :=
             {| Env_Context := ctx;
                Tests := Tests (R_Environment r);
                Filters := Filters (R_Environment r);
                Statements := Statements (R_Environment r) |};
           R_Template := R_Template r;
           RootNode := RootNode r;
           Output := Output r;
           R_Loader := R_Loader r |}).

Definition Renderer_Evaluator (r : Renderer) : Evaluator :=
  {| E_Environment := R_Environment r;
     E_Config := R_Config r;
     E_Loader := Template_parser_Loader (R_Template r) |}.

Definition Renderer_Eval (st : State) (r : Renderer) (node : Expression) : Value :=
  let e := Renderer_Evaluator r in
  Evaluator_Eval st e node.

(** The node kinds [Visit] tells apart. *)
Record OutputNode := {
  Output_Expression : Expression;
  Output_Condition : option Expression;     (* None for nil *)
  Output_Alternative : option Expression    (* None for nil *)
}.

Inductive Node :=
  | NComment
  | NData (Val : string) (TrimLeft_ TrimRight_ : bool)
  | NOutput (n : OutputNode)
  | NStatementBlock (n : StatementBlock)
  | NOther.

(** What [Visit] returns: the visitor to continue with, and the error. *)
Definition VisitResult : Type := option Renderer * option error.

(** The end of the Output case: the error check on the chosen value and the
    write. *)
Definition write_value (st : State) (r : Renderer) (n : OutputNode) (value : Value)
  : option (State * VisitResult) :=
  if IsError value then
    Some (st, (None, Some (Wrapf (ValueError value)
                             "Unable to render expression at line %d: %s"
                             [EInt (Expression_Line (Output_Expression n));
                              EStr (Expression_String (Output_Expression n))])))
  else
    cfg ← configs st !! R_Config r;
    st' ← (if AutoEscape cfg && IsString value && negb (Safe value)
           then WriteString st (Output r) (Escaped value)
           else WriteString st (Output r) (Value_String value));
    Some (st', (None, None)).

Definition Renderer_Visit (it : MapIter) (st : State) (r : Renderer) (node : Node)
  : option (State * VisitResult) :=
  match node with
  | NComment => Some (st, (None, None))
  | NData val trim_left trim_right =>
      let output := val in
      let output := if trim_left then TrimLeft output space_newline_tab else output in
      let output := if trim_right then TrimRight output space_newline_tab else output in
      st' ← WriteString st (Output r) output;
      Some (st', (None, None))
  | NOutput n =>
      match Output_Condition n with
      | Some cond =>
          let condition := Renderer_Eval st r cond in
          if IsError condition then
            Some (st, (None, Some (Wrapf (ValueError condition)
                                     "Unable to render condition at line %d: %s"
                                     [EInt (Expression_Line cond);
                                      EStr (Expression_String cond)])))
          else if negb (IsNil condition) && IsTrue condition then
            write_value st r n (Renderer_Eval st r (Output_Expression n))
          else if IsNil condition || negb (IsTrue condition) then
            match Output_Alternative n with
            | Some alt => write_value st r n (Renderer_Eval st r alt)
            | None => Some (st, (None, None))
            end
          else
            Some (st, (None, Some (Wrapf (ValueError condition)
                                     "Unable to evaluation condition as boolean at line %d: %s"
                                     [EInt (Expression_Line cond);
                                      EStr (Expression_String cond)])))
      | None => write_value st r n (Renderer_Eval st r (Output_Expression n))
      end
  | NStatementBlock n =>
      match Stmt_Statement n with
      | Some stmt =>
          '(st', err) ← Execute stmt it r n st;
          match err with
          | Some err =>
              Some (st', (None, Some (Wrapf err
                                        "Unable to execute statement at line %d: %s"
                                        [EInt (Stmt_Line n); EStr (Stmt_String n)])))
          | None => Some (st', (None, None))
          end
      | None => Some (st, (None, None))
      end
  | NOther => Some (st, (Some r, None))
  end.

(** *** package statements: import and from-import *)

Record ImportStmt := {
  location : Token;
  filenameExpression : Expression;
  as_ : string;
  withContext : bool
}.

(** The loop of [ImportStmt.Execute] filling the local table [macros]. *)
Fixpoint import_loop (st : State) (r : Renderer)
    (entries : list (string * MacroNode)) (macros : gmap string Macro)
  : gmap string Macro + error :=
  match entries with
  | [] => inl macros
  | (name, macro) :: rest =>
      match MacroNodeToFunc st (Some macro) r with
      | inr err => inr (Wrapf err "Unable to import macro '%s'" [EStr name])
      | inl fn => import_loop st r rest (<[name := fn]> macros)
      end
  end.

Definition ImportStmt_Execute (stmt : ImportStmt) (it : MapIter) (r : Renderer)
    (tag : StatementBlock) (st : State) : option (State * option error) :=
  let filenameValue := Renderer_Eval st r (filenameExpression stmt) in
  if IsError filenameValue then
    Some (st, Some (Wrap (ValueError filenameValue) "Unable to evaluate filename"))
  else
    let filename := Value_String filenameValue in
    match Loader_Inherit (R_Loader r) filename with
    | inr _ =>
        Some (st, Some (Errorf "failed to inherit loader from '%s': %s"
                          [EStr filename; ELoader (R_Loader r)]))
    | inl loader =>
        match NewTemplate st filename (R_Config r) loader (R_Environment r) with
        | inr err =>
            Some (st, Some (Errorf "unable to load template '%s': %s"
                              [EStr filename; EErr err]))
        | inl template =>
            match import_loop st r (range it (Template_Macros template)) ∅ with
            | inr err => Some (st, Some err)
            | inl macros =>
                st' ← Context_Set st (Env_Context (R_Environment r))
                        (as_ stmt) (AMacros macros);
                Some (st', None)
            end
        end
    end.

Record FromImportStmt := {
  F_location : Token;
  FilenameExpression : Expression;
  WithContext : bool;
  F_Template : option TemplateNode;
  As : gmap string string;              (* alias -> name *)
  Macros : gmap string MacroNode
}.

(** The loop of [FromImportStmt.Execute] over the entries of [stmt.As]. *)
Fixpoint from_import_loop (r : Renderer) (imported : gmap string MacroNode)
    (entries : list (string * string)) (st : State)
  : option (State * option error) :=
  match entries with
  | [] => Some (st, None)
  | (alias, name) :: rest =>
      let node := imported !! name in
      match MacroNodeToFunc st node r with
      | inr err =>
          Some (st, Some (Wrapf err "Unable to import macro '%s'" [EStr name]))
      | inl fn =>
          st' ← Context_Set st (Env_Context (R_Environment r)) alias (AMacro fn);
          from_import_loop r imported rest st'
      end
  end.

Definition FromImportStmt_Execute (stmt : FromImportStmt) (it : MapIter)
    (r : Renderer) (tag : StatementBlock) (st : State)
  : option (State * option error) :=
  let filenameValue := Renderer_Eval st r (FilenameExpression stmt) in
  if IsError filenameValue then
    Some (st, Some (Wrap (ValueError filenameValue) "Unable to evaluate filename"))
  else
    let filename := Value_String filenameValue in
    match Loader_Inherit (R_Loader r) filename with
    | inr _ =>
        Some (st, Some (Errorf "failed to inherit loader from '%s': %s"
                          [EStr filename; ELoader (R_Loader r)]))
    | inl loader =>
        match NewTemplate st filename (R_Config r) loader (R_Environment r) with
        | inr err =>
            Some (st, Some (Errorf "unable to load template '%s': %s"
                              [EStr filename; EErr err]))
        | inl template =>
            let imported := Template_Macros template in
            from_import_loop r imported (range it (As stmt)) st
        end
    end.

(** Both statement types implement [Statement]. *)
Definition ImportStmt_Statement (stmt : ImportStmt) : Statement :=
  {| Execute := ImportStmt_Execute stmt |}.
Definition FromImportStmt_Statement (stmt : FromImportStmt) : Statement :=
  {| Execute := FromImportStmt_Execute stmt |}.

End Model.

(** ** Notions used to state the properties *)

(** The map that results from assigning the entries to [m] one after the
    other. *)
Definition assign_all {V : Type} (m : gmap string V) (entries : list (string * V))
  : gmap string V :=
  foldl (fun acc kv => <[kv.1 := kv.2]> acc) m entries.

Section Scopes.
Context {T : Types}.

(** References of a context are in range, and a parent was allocated before
    its child: what [NewContext], [EmptyContext] and [Inherit] build. *)
Definition wf_context (st : State) (i : loc) (c : Context) : bool :=
  bool_decide (data c < length (frames st)) &&
  match parent c with
  | Some p => bool_decide (p < i)
  | None => true
  end.

Definition wf_State (st : State) : bool :=
  forallb (fun ic => wf_context st ic.1 ic.2) (imap pair (contexts st)).

(** [st'] keeps the contexts of [st] and, in each of its frames, the binding
    of [name]. *)
Definition keeps (name : string) (st st' : State) : Prop :=
  (forall i c, contexts st !! i = Some c -> contexts st' !! i = Some c)
  /\ (forall d m, frames st !! d = Some m ->
        exists m', frames st' !! d = Some m' /\ m' !! name = m !! name).

(** The frames of a scope, local frame first, root last. *)
Fixpoint chain_fuel (fuel : nat) (st : State) (ctx : loc)
  : option (list (gmap string any)) :=
  match fuel with
  | O => None
  | S fuel' =>
      c ← contexts st !! ctx;
      m ← frames st !! data c;
      match parent c with
      | Some p => rest ← chain_fuel fuel' st p; Some (m :: rest)
      | None => Some [m]
      end
  end.

Definition scope_chain (st : State) (ctx : loc) : option (list (gmap string any)) :=
  chain_fuel (length (contexts st)) st ctx.

(** The binding of [name] in the first frame that has one. *)
Fixpoint first_match (chain : list (gmap string any)) (name : string) : option any :=
  match chain with
  | [] => None
  | m :: rest =>
      match m !! name with
      | Some v => Some v
      | None => first_match rest name
      end
  end.

Context {O : Ops}.

(** The expression an Output node renders, by the rules of the
    specification: none when the condition is an error, the primary
    expression without a condition or under a true one, the alternative (if
    any) otherwise. *)
Definition chosen_expression (st : State) (r : Renderer) (n : OutputNode)
  : option Expression :=
  match Output_Condition n with
  | None => Some (Output_Expression n)
  | Some cond =>
      let condition := Renderer_Eval st r cond in
      if IsError condition then None
      else if negb (IsNil condition) && IsTrue condition
           then Some (Output_Expression n)
           else Output_Alternative n
  end.
End Scopes.

(** ** renderer.go: Execute and ExecuteWrapper

    Both hand a renderer and a node to [nodes.Walk]; the walk itself, the
    [Parent] field of [nodes.Template] and the type [nodes.Wrapper] belong
    to package [nodes]. The loop of [Execute] has no bound of its own:
    [fuel] bounds the number of [Parent] links it follows, and it does not
    return when the links form a cycle. *)

Section Walk.
Context {T : Types}.
Variable Wrapper : Type.
Variable Parent : TemplateNode -> option TemplateNode.
Variable Walk_Template :
  Renderer -> TemplateNode -> State -> option (State * option error).
Variable Walk_Wrapper :
  Renderer -> Wrapper -> State -> option (State * option error).

(** The loop [for root.Parent != nil] of [Execute]. *)
Fixpoint root_of (fuel : nat) (root : TemplateNode) : option TemplateNode :=
  match fuel with
  | O => None
  | S fuel' =>
      match Parent root with
      | Some p => root_of fuel' p
      | None => Some root
      end
  end.

Definition Renderer_Execute (fuel : nat) (r : Renderer) (st : State)
  : option (State * option error) :=
  root ← root_of fuel (RootNode r);
  Walk_Template r root st.

Definition Renderer_ExecuteWrapper (r : Renderer) (wrapper : Wrapper) (st : State)
  : option (State * option error) :=
  '(st1, sub) ← Renderer_Inherit st r;
  Walk_Wrapper sub wrapper st1.

(** The node reached from [n] by following [k] links to the parent. *)
Fixpoint nth_parent (k : nat) (n : TemplateNode) : option TemplateNode :=
  match k with
  | O => Some n
  | S k' => p ← Parent n; nth_parent k' p
  end.
End Walk.

(** ** Notions for the trim directive *)

(** Every character of [s] is in the cutset. *)
Fixpoint all_in_cutset (s cutset : string) : bool :=
  match s with
  | EmptyString => true
  | String c s' => in_cutset c cutset && all_in_cutset s' cutset
  end.

(** [s] begins, or ends, with a character of the cutset. *)
Definition starts_in_cutset (s cutset : string) : bool :=
  match s with
  | EmptyString => false
  | String c _ => in_cutset c cutset
  end.

Definition ends_in_cutset (s cutset : string) : bool :=
  starts_in_cutset (String.rev s) cutset.

(** ** A small instance of the collaborators, for concrete runs *)

Module Demo.
Inductive value :=
  | Nil
  | Bool (b : bool)
  | Str (s : string) (safe : bool)
  | Number (n : Z)
  | Err (msg : string).

Record macro_node := { body : string; defaults_ok : bool }.

Definition types : Types :=
  {| Value := value; Expression := value; MacroNode := macro_node;
     Macro := string; Loader := string; Template := gmap string macro_node;
     TemplateNode := string; StatementBlock := unit; Token := unit;
     SelfValue := loc; Settings := unit; Dynamic := Z |}.
#[local] Existing Instance types.

Fixpoint escape (s : string) : string :=
  match s with
  | EmptyString => EmptyString
  | String c s' =>
      (if Ascii.eqb c "<" then "&lt;"
       else if Ascii.eqb c ">" then "&gt;"
       else String c EmptyString) +:+ escape s'
  end.

Definition to_string (v : value) : string :=
  match v with
  | Nil => EmptyString
  | Bool true => "True"
  | Bool false => "False"
  | Str s _ => s
  | Number _ => "0"
  | Err msg => msg
  end.

(** Two templates: "lib" with two sound macros, "broken" with a macro whose
    default argument fails to evaluate. *)
Definition lib : gmap string macro_node :=
  {[ "foo" := {| body := "FOO"; defaults_ok := true |};
     "baz" := {| body := "BAZ"; defaults_ok := true |} ]}.
Definition broken : gmap string macro_node :=
  {[ "foo" := {| body := "FOO"; defaults_ok := true |};
     "bad" := {| body := "BAD"; defaults_ok := false |} ]}.

Definition ops : Ops :=
  {| IsError := fun v => match v with Err _ => true | _ => false end;
     IsNil := fun v => match v with Nil => true | _ => false end;
     IsTrue := fun v => match v with Bool b => b | Str s _ => negb (String.eqb s EmptyString)
                                | _ => false end;
     IsString := fun v => match v with Str _ _ => true | _ => false end;
     Safe := fun v => match v with Str _ safe => safe | _ => false end;
     Escaped := fun v => escape (to_string v);
     Value_String := to_string;
     Evaluator_Eval := fun _ _ e => e;
     Expression_Line := fun _ => 1%Z;
     Expression_String := to_string;
     Stmt_Statement := fun _ => None;
     Stmt_Line := fun _ => 1%Z;
     Stmt_String := fun _ => "Stmt";
     Loader_Inherit := fun l _ => inl l;
     NewTemplate := fun _ filename _ _ _ =>
       if String.eqb filename "lib" then inl lib
       else if String.eqb filename "broken" then inl broken
       else inr (ErrorNew "template not found");
     Template_root := fun _ => "root";
     Template_parser_Loader := fun _ => "loader";
     Template_Macros := fun t => t;
     MacroNodeToFunc := fun _ node _ =>
       match node with
       | Some n => if defaults_ok n then inl (body n)
                   else inr (ErrorNew "Unable to evaluate parameter")
       | None => inr (ErrorNew "nil macro")
       end;
     Self := fun r => Output r |}.

(** Entries in the order of [map_to_list], and in the opposite order. *)
Definition forwards : MapIter :=
  {| range := fun V m => map_to_list m;
     range_perm := fun V m => reflexivity (map_to_list m) |}.
Definition backwards : MapIter :=
  {| range := fun V m => reverse (map_to_list m);
     range_perm := fun V m => reverse_Permutation (map_to_list m) |}.

(** The one configuration of the runs. *)
Definition cfg0 : Config := {| AutoEscape := true; settings := () |}.

(** A number held in an interface. *)
Definition dyn (n : Z) : any := ADynamic n.

(** Three nested scopes: a root binding x and y, its child rebinding y, and
    a grandchild with an empty frame; a separate root scope binding k; one
    configuration with autoescaping on; one empty builder. *)
Definition st0 : State :=
  {| frames := [ {[ "x" := ADynamic 1%Z; "y" := ADynamic 2%Z ]};
                 {[ "y" := ADynamic 3%Z ]};
                 ∅;
                 {[ "k" := ADynamic 4%Z ]} ];
     contexts := [ {| data := 0; parent := None |};
                   {| data := 1; parent := Some 0 |};
                   {| data := 2; parent := Some 1 |};
                   {| data := 3; parent := None |} ];
     configs := [ cfg0 ];
     builders := [ EmptyString ] |}.

Definition env0 : Environment :=
  {| Filters := 0; Statements := 0; Tests := 0; Env_Context := 2 |}.

Definition r0 : Renderer :=
  {| R_Config := 0; R_Environment := env0; R_Loader := "loader";
     R_Template := lib; RootNode := "root"; Output := 0 |}.

(** [import "lib" as L], [from "lib" import foo as bar] and
    [from "broken" import foo, bad]. *)
Definition import_lib : ImportStmt :=
  {| location := (); filenameExpression := Str "lib" false;
     as_ := "L"; withContext := false |}.

Definition from_lib : FromImportStmt :=
  {| F_location := (); FilenameExpression := Str "lib" false;
     WithContext := false; F_Template := None;
     As := {[ "bar" := "foo" ]}; Macros := ∅ |}.

Definition from_broken : FromImportStmt :=
  {| F_location := (); FilenameExpression := Str "broken" false;
     WithContext := false; F_Template := None;
     As := {[ "foo" := "foo"; "bad" := "bad" ]}; Macros := ∅ |}.

(** Output nodes: a failing condition, a false condition without
    alternative, and the unconditional output of an unsafe and of a safe
    string. *)
Definition out_error : OutputNode :=
  {| Output_Expression := Str "shown" false;
     Output_Condition := Some (Err "boom");
     Output_Alternative := None |}.
Definition out_false : OutputNode :=
  {| Output_Expression := Str "shown" false;
     Output_Condition := Some (Bool false);
     Output_Alternative := None |}.
Definition out_bold : OutputNode :=
  {| Output_Expression := Str "<b>" false;
     Output_Condition := None;
     Output_Alternative := None |}.
Definition out_safe : OutputNode :=
  {| Output_Expression := Str "<b>" true;
     Output_Condition := None;
     Output_Alternative := None |}.

(** A store of registries over numbered capabilities. *)
Definition registries : list (gmap string nat) :=
  [ {[ "upper" := 1 ]}; {[ "upper" := 2; "lower" := 3 ]} ].

(** [import "broken" as B], [import "nolib" as N], [from "nolib" import foo]
    and [from "lib" import nope], "nolib" being no template and nope no
    macro of "lib". *)
Definition import_broken : ImportStmt :=
  {| location := (); filenameExpression := Str "broken" false;
     as_ := "B"; withContext := false |}.

Definition import_nolib : ImportStmt :=
  {| location := (); filenameExpression := Str "nolib" false;
     as_ := "N"; withContext := false |}.

Definition from_nolib : FromImportStmt :=
  {| F_location := (); FilenameExpression := Str "nolib" false;
     WithContext := false; F_Template := None;
     As := {[ "foo" := "foo" ]}; Macros := ∅ |}.

Definition from_lib_nope : FromImportStmt :=
  {| F_location := (); FilenameExpression := Str "lib" false;
     WithContext := false; F_Template := None;
     As := {[ "nope" := "nope" ]}; Macros := ∅ |}.

Definition from_lib_nothing : FromImportStmt :=
  {| F_location := (); FilenameExpression := Str "lib" false;
     WithContext := false; F_Template := None;
     As := ∅; Macros := ∅ |}.

(** The collaborators again, every template now being without macros. *)
Definition ops_bare : Ops :=
  {| IsError := IsError (Ops := ops);
     IsNil := IsNil (Ops := ops);
     IsTrue := IsTrue (Ops := ops);
     IsString := IsString (Ops := ops);
     Safe := Safe (Ops := ops);
     Escaped := Escaped (Ops := ops);
     Value_String := Value_String (Ops := ops);
     Evaluator_Eval := Evaluator_Eval (Ops := ops);
     Expression_Line := Expression_Line (Ops := ops);
     Expression_String := Expression_String (Ops := ops);
     Stmt_Statement := Stmt_Statement (Ops := ops);
     Stmt_Line := Stmt_Line (Ops := ops);
     Stmt_String := Stmt_String (Ops := ops);
     Loader_Inherit := Loader_Inherit (Ops := ops);
     NewTemplate := fun _ _ _ _ _ => inl ∅;
     Template_root := Template_root (Ops := ops);
     Template_parser_Loader := Template_parser_Loader (Ops := ops);
     Template_Macros := Template_Macros (Ops := ops);
     MacroNodeToFunc := MacroNodeToFunc (Ops := ops);
     Self := Self (Ops := ops) |}.

(** An Output node whose condition is false and whose alternative fails. *)
Definition out_alt_error : OutputNode :=
  {| Output_Expression := Str "shown" false;
     Output_Condition := Some (Bool false);
     Output_Alternative := Some (Err "no alternative") |}.

(** Template inheritance: "child" extends "base"; a walk that does
    nothing; a renderer of "child". *)
Definition parent_of (n : string) : option string :=
  if String.eqb n "child" then Some "base" else None.

Definition walk_nothing (r : Renderer) (n : string) (st : State)
  : option (State * option error) := Some (st, None).

Definition r_child : Renderer :=
  {| R_Config := 0; R_Environment := env0; R_Loader := "loader";
     R_Template := lib; RootNode := "child"; Output := 0 |}.

(** The state [st0] after [from "broken" import foo] bound foo in scope 2. *)
Definition st_foo : State :=
  with_frames st0 (<[2 := {[ "foo" := AMacro "FOO" ]}]> (frames st0)).
End Demo.

(** * Properties *)

(** ** Ranging over a map and assigning each entry *)

Section RangeAssign.
Context {V : Type}.

Lemma assign_all_union (entries : list (string * V)) (m : gmap string V) :
  NoDup entries.*1 ->
  assign_all m entries = list_to_map entries ∪ m.
Proof.
  unfold assign_all. revert m.
  induction entries as [|[k v] rest IH]; intros m Hnd.
  - simpl. by rewrite (left_id_L ∅ (∪)).
  - rewrite fmap_cons in Hnd. apply NoDup_cons in Hnd as [Hk Hrest].
    cbn [foldl list_to_map foldr fst snd uncurry].
    rewrite IH by done.
    rewrite <- insert_union_l. symmetry.
    apply insert_union_r.
    by apply not_elem_of_list_to_map.
Qed.

(** Whatever order the runtime picks, assigning every entry of [other]
    into [m] yields [other ∪ m]: the entries of [other] win. *)
Lemma assign_all_range (it : MapIter) (m other : gmap string V) :
  assign_all m (range it other) = other ∪ m.
Proof.
  pose proof (range_perm it V other) as Hperm.
  rewrite assign_all_union.
  - f_equal. rewrite <- (list_to_map_to_list other) at 2.
    apply list_to_map_proper; [|done].
    rewrite Hperm. apply NoDup_fst_map_to_list.
  - rewrite Hperm. apply NoDup_fst_map_to_list.
Qed.
End RangeAssign.

(** ** The registries *)

Section RegistryFacts.
Context {F : Type}.
Variable already_registered : string.
Variable does_not_exist : string.

Lemma reg_update_loop_assign (fs : loc) (entries : list (string * F))
    (st : RegStore F) (m : gmap string F) :
  st !! fs = Some m ->
  reg_update_loop fs entries st = Some (<[fs := assign_all m entries]> st).
Proof.
  revert st m. induction entries as [|[k v] rest IH]; intros st m Hm; simpl.
  - unfold assign_all; simpl. by rewrite list_insert_id.
  - unfold reg_assign. rewrite Hm. simpl.
    erewrite IH.
    + by rewrite list_insert_insert_eq.
    + apply list_lookup_insert_eq. by eapply lookup_lt_Some.
Qed.

(** C7. In each registry: [Register] of a name already present returns an
    error and changes nothing, and otherwise adds the mapping; [Replace] of
    a name not present returns an error and changes nothing, and otherwise
    rebinds the name, so that the next lookup yields the new capability;
    [Update] never fails and leaves the receiver holding the entries of
    both maps, those of [other] winning on a shared name. *)
Theorem registry_override_discipline (it : MapIter) (st : RegStore F)
    (fs other : loc) (m mo : gmap string F) (name : string) (fn : F) :
  st !! fs = Some m ->
  st !! other = Some mo ->
  (is_Some (m !! name) ->
     Register already_registered st fs name fn
     = Some (st, Some (RegErrorf already_registered [ArgStr name])))
  /\ (m !! name = None ->
     Register already_registered st fs name fn
     = Some (<[fs := <[name := fn]> m]> st, None))
  /\ (m !! name = None ->
     Replace does_not_exist st fs name fn
     = Some (st, Some (RegErrorf does_not_exist [ArgStr name])))
  /\ (is_Some (m !! name) ->
     exists st', Replace does_not_exist st fs name fn = Some (st', None)
       /\ st' = <[fs := <[name := fn]> m]> st
       /\ (st' !! fs ≫= fun m' => m' !! name) = Some fn)
  /\ Update it st fs other = Some (<[fs := mo ∪ m]> st, fs).
Proof.
  intros Hm Hmo.
  assert (Hlt : fs < length st) by by eapply lookup_lt_Some.
  repeat split.
  - intros Hin. unfold Register, Exists. rewrite Hm. simpl.
    by rewrite bool_decide_eq_true_2.
  - intros Hnone. unfold Register, Exists, reg_assign. rewrite Hm. simpl.
    rewrite bool_decide_eq_false_2; [done|].
    rewrite Hnone. by intros [? ?].
  - intros Hnone. unfold Replace, Exists. rewrite Hm. simpl.
    rewrite bool_decide_eq_false_2; [done|].
    rewrite Hnone. by intros [? ?].
  - intros Hin. eexists. split; [|split; [reflexivity|]].
    + unfold Replace, Exists, reg_assign. rewrite Hm. simpl.
      by rewrite bool_decide_eq_true_2.
    + rewrite list_lookup_insert_eq by done. simpl.
      apply lookup_insert_eq.
  - unfold Update. rewrite Hmo. simpl.
    rewrite (reg_update_loop_assign _ _ _ m) by done. simpl.
    by rewrite assign_all_range.
Qed.
End RegistryFacts.

(** ** The scope chain *)

Section ContextFacts.
Context {T : Types}.

Lemma wf_State_lookup (st : State) (i : loc) (c : Context) :
  wf_State st = true ->
  contexts st !! i = Some c ->
  data c < length (frames st) /\ (forall p, parent c = Some p -> p < i).
Proof.
  intros Hwf Hc. unfold wf_State in Hwf.
  rewrite forallb_forall in Hwf.
  specialize (Hwf (i, c)).
  assert (Hin : In (i, c) (imap pair (contexts st))).
  { apply list_elem_of_In. by apply (elem_of_lookup_imap_2 pair). }
  apply Hwf in Hin. unfold wf_context in Hin. simpl in Hin.
  apply andb_true_iff in Hin as [Hd Hp].
  apply bool_decide_eq_true in Hd. split; [done|].
  intros p Hpar. rewrite Hpar in Hp. by apply bool_decide_eq_true in Hp.
Qed.

(** On a well-formed state a lookup never needs more fuel than the index of
    the context it starts from. *)
Lemma Get_fuel_enough (st : State) (name : string) (f1 f2 : nat) (ctx : loc) :
  wf_State st = true -> ctx < f1 -> ctx < f2 ->
  Get_fuel f1 st ctx name = Get_fuel f2 st ctx name.
Proof.
  intros Hwf. revert f2 ctx.
  induction f1 as [|f1 IH]; intros [|f2] ctx H1 H2; try lia.
  simpl. destruct (contexts st !! ctx) as [c|] eqn:Hc; [|done]. simpl.
  destruct (frames st !! data c) as [m|]; [|done]. simpl.
  destruct (m !! name); [done|].
  destruct (parent c) as [p|] eqn:Hp; [|done].
  destruct (wf_State_lookup _ _ _ Hwf Hc) as [_ Hlt].
  specialize (Hlt p Hp). apply IH; lia.
Qed.

Lemma Has_fuel_enough (st : State) (name : string) (f1 f2 : nat) (ctx : loc) :
  wf_State st = true -> ctx < f1 -> ctx < f2 ->
  Has_fuel f1 st ctx name = Has_fuel f2 st ctx name.
Proof.
  intros Hwf. revert f2 ctx.
  induction f1 as [|f1 IH]; intros [|f2] ctx H1 H2; try lia.
  simpl. destruct (contexts st !! ctx) as [c|] eqn:Hc; [|done]. simpl.
  destruct (frames st !! data c) as [m|]; [|done]. simpl.
  destruct (negb _); [|done].
  destruct (parent c) as [p|] eqn:Hp; [|done].
  destruct (wf_State_lookup _ _ _ Hwf Hc) as [_ Hlt].
  specialize (Hlt p Hp). apply IH; lia.
Qed.

Lemma Get_fuel_keeps (name : string) (st st' : State) (fuel : nat) (ctx : loc) :
  wf_State st = true -> keeps name st st' ->
  ctx < length (contexts st) ->
  Get_fuel fuel st' ctx name = Get_fuel fuel st ctx name.
Proof.
  intros Hwf [Hcs Hfs]. revert ctx.
  induction fuel as [|fuel IH]; intros ctx Hlt; [done|].
  apply lookup_lt_is_Some_2 in Hlt as [c Hc].
  simpl. rewrite Hc, (Hcs _ _ Hc). simpl.
  destruct (wf_State_lookup _ _ _ Hwf Hc) as [Hd Hp].
  apply lookup_lt_is_Some_2 in Hd as [m Hm].
  destruct (Hfs _ _ Hm) as (m' & Hm' & Heq).
  rewrite Hm, Hm'. simpl. rewrite Heq.
  destruct (m !! name); [done|].
  destruct (parent c) as [p|] eqn:Hpar; [|done].
  apply IH. specialize (Hp p eq_refl).
  apply lookup_lt_Some in Hc. lia.
Qed.

Lemma Has_fuel_keeps (name : string) (st st' : State) (fuel : nat) (ctx : loc) :
  wf_State st = true -> keeps name st st' ->
  ctx < length (contexts st) ->
  Has_fuel fuel st' ctx name = Has_fuel fuel st ctx name.
Proof.
  intros Hwf [Hcs Hfs]. revert ctx.
  induction fuel as [|fuel IH]; intros ctx Hlt; [done|].
  apply lookup_lt_is_Some_2 in Hlt as [c Hc].
  simpl. rewrite Hc, (Hcs _ _ Hc). simpl.
  destruct (wf_State_lookup _ _ _ Hwf Hc) as [Hd Hp].
  apply lookup_lt_is_Some_2 in Hd as [m Hm].
  destruct (Hfs _ _ Hm) as (m' & Hm' & Heq).
  rewrite Hm, Hm'. simpl. rewrite Heq.
  destruct (negb _); [|done].
  destruct (parent c) as [p|] eqn:Hpar; [|done].
  apply IH. specialize (Hp p eq_refl).
  apply lookup_lt_Some in Hc. lia.
Qed.

Lemma keeps_length (name : string) (st st' : State) :
  keeps name st st' -> length (contexts st) <= length (contexts st').
Proof.
  intros [Hcs _].
  destruct (decide (length (contexts st) = 0)) as [|Hne]; [lia|].
  assert (Hlt : pred (length (contexts st)) < length (contexts st)) by lia.
  apply lookup_lt_is_Some_2 in Hlt as [c Hc].
  apply Hcs, lookup_lt_Some in Hc. lia.
Qed.

Lemma Context_Get_keeps (name : string) (st st' : State) (ctx : loc) :
  wf_State st = true -> keeps name st st' ->
  ctx < length (contexts st) ->
  Context_Get st' ctx name = Context_Get st ctx name.
Proof.
  intros Hwf Hk Hlt. unfold Context_Get.
  rewrite (Get_fuel_keeps name st st') by done.
  apply Get_fuel_enough; [done| |done].
  apply keeps_length in Hk. lia.
Qed.

Lemma Context_Has_keeps (name : string) (st st' : State) (ctx : loc) :
  wf_State st = true -> keeps name st st' ->
  ctx < length (contexts st) ->
  Context_Has st' ctx name = Context_Has st ctx name.
Proof.
  intros Hwf Hk Hlt. unfold Context_Has.
  rewrite (Has_fuel_keeps name st st') by done.
  apply Has_fuel_enough; [done| |done].
  apply keeps_length in Hk. lia.
Qed.

(** Replacing one frame by a frame with the same binding of [name]. *)
Lemma keeps_frame_insert (name : string) (st : State) (d : loc)
    (m m' : gmap string any) :
  frames st !! d = Some m -> m' !! name = m !! name ->
  keeps name st (with_frames st (<[d := m']> (frames st))).
Proof.
  intros Hm Heq. split; [done|]. simpl.
  intros d0 m0 Hm0. destruct (decide (d = d0)) as [<-|Hne].
  - exists m'. rewrite list_lookup_insert_eq by by eapply lookup_lt_Some.
    split; [done|]. congruence.
  - exists m0. by rewrite list_lookup_insert_ne.
Qed.

Lemma chain_fuel_first_match (st : State) (name : string) (fuel : nat) (ctx : loc) :
  wf_State st = true -> ctx < fuel -> ctx < length (contexts st) ->
  exists chain, chain_fuel fuel st ctx = Some chain
    /\ chain <> []
    /\ Get_fuel fuel st ctx name
       = Some (match first_match chain name with
               | Some v => (v, true)
               | None => (nil, false)
               end)
    /\ Has_fuel fuel st ctx name
       = Some (bool_decide (is_Some (first_match chain name))).
Proof.
  intros Hwf. revert ctx.
  induction fuel as [|fuel IH]; intros ctx Hfuel Hlt; [lia|].
  apply lookup_lt_is_Some_2 in Hlt as [c Hc].
  destruct (wf_State_lookup _ _ _ Hwf Hc) as [Hd Hp].
  apply lookup_lt_is_Some_2 in Hd as [m Hm].
  simpl. rewrite Hc. simpl. rewrite Hm. simpl.
  destruct (parent c) as [p|] eqn:Hpar.
  - specialize (Hp p eq_refl).
    destruct (IH p) as (rest & Hrest & Hne & Hget & Hhas); [lia| |].
    { apply lookup_lt_Some in Hc. lia. }
    rewrite Hrest. simpl. exists (m :: rest). split; [done|]. split; [done|].
    simpl. by destruct (m !! name) as [v|] eqn:Hv.
  - exists [m]. split; [done|]. split; [done|].
    simpl. by destruct (m !! name) as [v|] eqn:Hv.
Qed.

Lemma first_match_root (inner : list (gmap string any)) (root : gmap string any)
    (name : string) :
  Forall (fun m => m !! name = None) inner ->
  first_match (inner ++ [root]) name = root !! name.
Proof.
  induction 1 as [|m inner Hm _ IH]; simpl.
  - by destruct (root !! name).
  - by rewrite Hm.
Qed.

Lemma first_match_absent (chain : list (gmap string any)) (name : string) :
  Forall (fun m => m !! name = None) chain ->
  first_match chain name = None.
Proof. induction 1 as [|m chain Hm _ IH]; simpl; [done|]. by rewrite Hm. Qed.

(** C5. [Get] and [Has] look a name up in the local frame first and then in
    the ancestor frames in order, and answer with the first binding found: a
    binding held only by the root of a chain is found from the leaf, and a
    name that no frame of the chain binds is reported as not found, [Get]
    giving (nil, false) and [Has] giving false. *)
Theorem Context_Get_Has_resolve (st : State) (ctx : loc) (name : string) :
  wf_State st = true ->
  ctx < length (contexts st) ->
  exists chain,
    scope_chain st ctx = Some chain
    /\ Context_Get st ctx name
       = Some (match first_match chain name with
               | Some v => (v, true)
               | None => (nil, false)
               end)
    /\ Context_Has st ctx name
       = Some (bool_decide (is_Some (first_match chain name)))
    /\ (forall inner root v,
          chain = inner ++ [root] ->
          Forall (fun m => m !! name = None) inner ->
          root !! name = Some v ->
          Context_Get st ctx name = Some (v, true)
          /\ Context_Has st ctx name = Some true)
    /\ (Forall (fun m => m !! name = None) chain ->
          Context_Get st ctx name = Some (nil, false)
          /\ Context_Has st ctx name = Some false).
Proof.
  intros Hwf Hlt.
  destruct (chain_fuel_first_match st name (length (contexts st)) ctx)
    as (chain & Hchain & _ & Hget & Hhas); [done..|].
  exists chain. unfold scope_chain, Context_Get, Context_Has.
  rewrite Hget, Hhas. split; [done|]. split; [done|]. split; [done|]. split.
  - intros inner root v -> Hinner Hroot.
    by rewrite first_match_root, Hroot.
  - intros Habsent. by rewrite first_match_absent.
Qed.

(** The state after [c2 := c.Inherit()] and [c2.Set(x, v)]. *)
Lemma Inherit_Set_state (st : State) (c : loc) (x : string) (v : any) :
  Context_Set (Context_Inherit st c).1 (Context_Inherit st c).2 x v
  = Some {| frames := frames st ++ [ {[ x := v ]} ];
            contexts := contexts st
                        ++ [ {| data := length (frames st); parent := Some c |} ];
            configs := configs st;
            builders := builders st |}.
Proof.
  unfold Context_Set, Context_Inherit, new_frame, new_context, frame_assign.
  simpl. rewrite list_lookup_middle by done. simpl.
  rewrite list_lookup_middle by done. simpl.
  unfold with_frames. simpl. do 2 f_equal.
  rewrite insert_app_r_alt by done.
  by rewrite Nat.sub_diag.
Qed.

(** C4. [Set] writes to the local frame of its receiver only. Where [c] has
    a parent [p] that binds [x], after [c2 := c.Inherit()] and
    [c2.Set(x, v2)] the child [c2] sees [v2] for [x], while [c] still sees
    what it saw, the frame of [p] still binds [x] as before, and no context
    that existed before has a changed frame or a changed lookup. *)
Theorem Context_Set_shadows_never_mutates (st : State) (c p : loc)
    (cell : Context) (fp : gmap string any) (x : string) (v1 v2 : any) :
  wf_State st = true ->
  contexts st !! c = Some cell ->
  parent cell = Some p ->
  local_frame st p = Some fp ->
  fp !! x = Some v1 ->
  exists st2,
    Context_Set (Context_Inherit st c).1 (Context_Inherit st c).2 x v2 = Some st2
    /\ Context_Get st2 (Context_Inherit st c).2 x = Some (v2, true)
    /\ Context_Get st2 c x = Context_Get st c x
    /\ local_frame st2 p = Some fp
    /\ (forall c', c' < length (contexts st) ->
          local_frame st2 c' = local_frame st c')
    /\ (forall c' y, c' < length (contexts st) ->
          Context_Get st2 c' y = Context_Get st c' y
          /\ Context_Has st2 c' y = Context_Has st c' y).
Proof.
  intros Hwf Hc Hpar Hfp Hx.
  eexists. split; [apply Inherit_Set_state|].
  set (st2 := Build_State _ _ _ _).
  assert (Hframes : forall c', c' < length (contexts st) ->
            local_frame st2 c' = local_frame st c').
  { intros c' Hlt. unfold local_frame. simpl.
    rewrite lookup_app_l by done.
    apply lookup_lt_is_Some_2 in Hlt as [c0 Hc0]. rewrite Hc0. simpl.
    destruct (wf_State_lookup _ _ _ Hwf Hc0) as [Hd _].
    by rewrite lookup_app_l. }
  assert (Hkeeps : forall y, keeps y st st2).
  { intros y. split; simpl.
    - intros i c0 Hi. rewrite lookup_app_l; [done|]. by eapply lookup_lt_Some.
    - intros d m Hm. exists m. rewrite lookup_app_l; [done|].
      by eapply lookup_lt_Some. }
  assert (Hc_lt : c < length (contexts st)) by by eapply lookup_lt_Some.
  split; [|split; [|split; [|split]]].
  - unfold Context_Get, Context_Inherit, new_frame, new_context. simpl.
    rewrite length_app, Nat.add_comm. simpl.
    rewrite list_lookup_middle by done. simpl.
    rewrite list_lookup_middle by done. simpl.
    by rewrite lookup_singleton_eq.
  - by apply Context_Get_keeps.
  - rewrite Hframes; [done|].
    destruct (wf_State_lookup _ _ _ Hwf Hc) as [_ Hp].
    specialize (Hp p Hpar). lia.
  - done.
  - intros c' y Hlt. split.
    + by apply Context_Get_keeps.
    + by apply Context_Has_keeps.
Qed.

(** The loop of [Update] assigns every entry to the receiver's frame. *)
Lemma update_loop_assign (ctx : loc) (c : Context)
    (entries : list (string * any)) (st : State) (m : gmap string any) :
  contexts st !! ctx = Some c ->
  frames st !! data c = Some m ->
  update_loop ctx entries st
  = Some (with_frames st (<[data c := assign_all m entries]> (frames st))).
Proof.
  revert st m. induction entries as [|[k v] rest IH]; intros st m Hc Hm; simpl.
  - unfold assign_all; simpl. rewrite list_insert_id by done. by destruct st.
  - unfold Context_Set, frame_assign. rewrite Hc. simpl. rewrite Hm. simpl.
    erewrite IH; [| done |].
    + unfold with_frames. simpl. by rewrite list_insert_insert_eq.
    + simpl. apply list_lookup_insert_eq. by eapply lookup_lt_Some.
Qed.

(** C6. [a.Update(b)] leaves in the local frame of [a] the entries of the
    local frame of [b] together with those entries of [a] whose key [b] does
    not have, and changes nothing else; the frames of the ancestors of [b]
    are not read: a name that the local frame of [b] does not bind keeps in
    [a] the binding it had, and if [a] did not have it before (as when only
    the parent of [b] binds it) [a] does not have it afterwards. *)
Theorem Context_Update_local_entries_only (it : MapIter) (st : State)
    (a b : loc) (ca cb : Context) (fa fb : gmap string any) :
  wf_State st = true ->
  contexts st !! a = Some ca -> frames st !! data ca = Some fa ->
  contexts st !! b = Some cb -> frames st !! data cb = Some fb ->
  exists st',
    Context_Update it st a b = Some (st', a)
    /\ st' = with_frames st (<[data ca := fb ∪ fa]> (frames st))
    /\ local_frame st' a = Some (fb ∪ fa)
    /\ (forall k v, fb !! k = Some v -> (fb ∪ fa) !! k = Some v)
    /\ (forall y, fb !! y = None ->
          (fb ∪ fa) !! y = fa !! y
          /\ Context_Get st' a y = Context_Get st a y
          /\ Context_Has st' a y = Context_Has st a y)
    /\ (forall y, fb !! y = None -> Context_Has st a y = Some false ->
          Context_Has st' a y = Some false).
Proof.
  intros Hwf Ha Hfa Hb Hfb.
  assert (Ha_lt : a < length (contexts st)) by by eapply lookup_lt_Some.
  assert (Hkeeps : forall y, fb !! y = None ->
            keeps y st (with_frames st (<[data ca := fb ∪ fa]> (frames st)))).
  { intros y Hy. apply (keeps_frame_insert y st (data ca) fa); [done|].
    by apply lookup_union_r. }
  eexists. split; [|split; [reflexivity|]].
  - unfold Context_Update. rewrite Hb. simpl. rewrite Hfb. simpl.
    rewrite (update_loop_assign a ca _ st fa) by done. simpl.
    by rewrite assign_all_range.
  - split; [|split; [|split]].
    + unfold local_frame. simpl. rewrite Ha. simpl.
      apply list_lookup_insert_eq. by eapply lookup_lt_Some.
    + intros k v Hk. by apply lookup_union_Some_l.
    + intros y Hy. split; [by apply lookup_union_r|]. split.
      * by apply Context_Get_keeps; [|apply Hkeeps|].
      * by apply Context_Has_keeps; [|apply Hkeeps|].
    + intros y Hy Hno. rewrite <- Hno.
      by apply Context_Has_keeps; [|apply Hkeeps|].
Qed.

End ContextFacts.

(** ** Well-formedness is an invariant of the Context operations *)

Section Invariant.
Context {T : Types}.

Lemma wf_State_intro (st : State) :
  (forall i c, contexts st !! i = Some c ->
     data c < length (frames st) /\ (forall p, parent c = Some p -> p < i)) ->
  wf_State st = true.
Proof.
  intros Hall. unfold wf_State. apply forallb_forall.
  intros [i c] Hin. apply list_elem_of_In, elem_of_lookup_imap in Hin
    as (i' & c' & [= -> ->] & Hc).
  destruct (Hall _ _ Hc) as [Hd Hp]. unfold wf_context. simpl.
  apply andb_true_iff. split; [by apply bool_decide_eq_true|].
  destruct (parent c') as [p|]; [|done].
  apply bool_decide_eq_true. by apply Hp.
Qed.

Lemma wf_State_new_context (st : State) (c : Context) :
  wf_State st = true ->
  data c < length (frames st) ->
  (forall p, parent c = Some p -> p < length (contexts st)) ->
  wf_State (new_context st c).1 = true.
Proof.
  intros Hwf Hd Hp. apply wf_State_intro. simpl.
  intros i c0 Hc0. apply lookup_app_Some in Hc0 as [Hc0|[Hlen Hc0]].
  - by apply (wf_State_lookup st).
  - apply list_lookup_singleton_Some in Hc0 as [Hi <-].
    split; [done|]. intros p Hpar. specialize (Hp p Hpar). lia.
Qed.

Lemma wf_State_new_frame (st : State) (m : gmap string any) :
  wf_State st = true -> wf_State (new_frame st m).1 = true.
Proof.
  intros Hwf. apply wf_State_intro. simpl. intros i c Hc.
  destruct (wf_State_lookup st i c Hwf Hc) as [Hd Hp].
  split; [|done]. rewrite length_app. lia.
Qed.

Lemma wf_State_NewContext (st : State) (d : loc) :
  wf_State st = true -> d < length (frames st) ->
  wf_State (NewContext st d).1 = true.
Proof. intros Hwf Hd. by apply wf_State_new_context. Qed.

Lemma wf_State_EmptyContext (st : State) :
  wf_State st = true -> wf_State (EmptyContext st).1 = true.
Proof.
  intros Hwf. unfold EmptyContext. simpl.
  apply (wf_State_new_context (new_frame st ∅).1).
  - by apply wf_State_new_frame.
  - simpl. rewrite length_app. simpl. lia.
  - done.
Qed.

Lemma wf_State_Inherit (st : State) (ctx : loc) :
  wf_State st = true -> ctx < length (contexts st) ->
  wf_State (Context_Inherit st ctx).1 = true.
Proof.
  intros Hwf Hctx. unfold Context_Inherit. simpl.
  apply (wf_State_new_context (new_frame st ∅).1).
  - by apply wf_State_new_frame.
  - simpl. rewrite length_app. simpl. lia.
  - simpl. by intros p [= <-].
Qed.

Lemma wf_State_Set (st st' : State) (ctx : loc) (name : string) (value : any) :
  wf_State st = true -> Context_Set st ctx name value = Some st' ->
  wf_State st' = true.
Proof.
  intros Hwf. unfold Context_Set, frame_assign.
  destruct (contexts st !! ctx) as [c|]; [|done]. simpl.
  destruct (frames st !! data c) as [m|]; [|done]. simpl.
  intros [= <-]. apply wf_State_intro. simpl. intros i c0 Hc0.
  rewrite length_insert. by apply (wf_State_lookup st).
Qed.

Lemma wf_State_Update (it : MapIter) (st st' : State) (a b a' : loc) :
  wf_State st = true -> Context_Update it st a b = Some (st', a') ->
  wf_State st' = true.
Proof.
  intros Hwf. unfold Context_Update.
  destruct (contexts st !! b) as [cb|]; [|done]. simpl.
  destruct (frames st !! data cb) as [mb|]; [|done]. simpl.
  generalize (range it mb). intros entries.
  destruct (update_loop a entries st) as [st1|] eqn:Hloop; [|done]. simpl.
  intros [= <- _]. revert st Hwf Hloop.
  induction entries as [|[k v] rest IH]; intros st Hwf Hloop; simpl in Hloop.
  - by injection Hloop as <-.
  - destruct (Context_Set st a k v) as [st2|] eqn:Hset; [|done]. simpl in Hloop.
    apply (IH st2); [|done]. by eapply wf_State_Set.
Qed.

End Invariant.

(** ** The renderer *)

Section RendererFacts.
Context {T : Types} {O : Ops}.

(** C2. On an Output node with a condition: when the condition evaluates to
    an error value, [Visit] returns that value wrapped with the line and the
    text of the condition, and writes nothing; when it evaluates to a value
    that is no error and is nil or not true, and the node has no alternative,
    [Visit] writes nothing and returns no error. *)
Theorem Visit_Output_condition (it : MapIter) (st : State) (r : Renderer)
    (n : OutputNode) (cond : Expression) :
  Output_Condition n = Some cond ->
  (IsError (Renderer_Eval st r cond) = true ->
     Renderer_Visit it st r (NOutput n)
     = Some (st, (None,
                  Some (Wrapf (ValueError (Renderer_Eval st r cond))
                          "Unable to render condition at line %d: %s"
                          [EInt (Expression_Line cond);
                           EStr (Expression_String cond)]))))
  /\ (IsError (Renderer_Eval st r cond) = false ->
      IsNil (Renderer_Eval st r cond) = true
        \/ IsTrue (Renderer_Eval st r cond) = false ->
      Output_Alternative n = None ->
      Renderer_Visit it st r (NOutput n) = Some (st, (None, None))).
Proof.
  intros Hcond. split.
  - intros Herr. simpl. by rewrite Hcond, Herr.
  - intros Herr Hfalse Halt. simpl. rewrite Hcond, Herr, Halt.
    destruct (IsNil (Renderer_Eval st r cond)),
             (IsTrue (Renderer_Eval st r cond)); simpl; try done.
    by destruct Hfalse.
Qed.

Lemma Visit_Output_chosen (it : MapIter) (st : State) (r : Renderer)
    (n : OutputNode) (e : Expression) :
  chosen_expression st r n = Some e ->
  Renderer_Visit it st r (NOutput n) = write_value st r n (Renderer_Eval st r e).
Proof.
  unfold chosen_expression. simpl.
  destruct (Output_Condition n) as [cond|]; [|by intros [= ->]].
  destruct (IsError _); [done|].
  destruct (IsNil _), (IsTrue _); simpl; intros Hsel;
    try (by injection Hsel as ->); by rewrite Hsel.
Qed.

(** C3. When the expression chosen for an Output node evaluates to a value
    that is no error, [Visit] appends to the output the escaped form of the
    value if autoescaping is on in the renderer's configuration, the value is
    a string and it is not marked safe, and the plain string form of the
    value in every other case. *)
Theorem Visit_Output_autoescape (it : MapIter) (st : State) (r : Renderer)
    (n : OutputNode) (e : Expression) (cfg : Config) (buf : string) :
  chosen_expression st r n = Some e ->
  IsError (Renderer_Eval st r e) = false ->
  configs st !! R_Config r = Some cfg ->
  builders st !! Output r = Some buf ->
  Renderer_Visit it st r (NOutput n)
  = Some (with_builders st
            (<[Output r :=
                 buf +:+ (if AutoEscape cfg
                             && IsString (Renderer_Eval st r e)
                             && negb (Safe (Renderer_Eval st r e))
                          then Escaped (Renderer_Eval st r e)
                          else Value_String (Renderer_Eval st r e))]>
               (builders st)),
          (None, None)).
Proof.
  intros Hsel Herr Hcfg Hbuf.
  rewrite (Visit_Output_chosen it st r n e Hsel).
  unfold write_value, WriteString. rewrite Herr, Hcfg. simpl.
  by destruct (_ && _ && _); rewrite Hbuf.
Qed.

(** C9. [r.Inherit()] gives a renderer whose configuration is a new struct
    with the settings of [r]'s, so that a store through it leaves [r]'s
    configuration as it was; whose context is the child that
    [Context.Inherit] makes of [r]'s context; and whose registries, output
    sink, template, root node and loader are those of [r]. *)
Theorem Renderer_Inherit_clone_and_share (st : State) (r : Renderer)
    (cfg : Config) :
  configs st !! R_Config r = Some cfg ->
  exists st' sub,
    Renderer_Inherit st r = Some (st', sub)
    /\ R_Config sub = length (configs st)
    /\ R_Config sub <> R_Config r
    /\ configs st' !! R_Config sub = Some cfg
    /\ configs st' !! R_Config r = Some cfg
    /\ (forall cfg',
          configs (Config_store st' (R_Config sub) cfg') !! R_Config sub = Some cfg'
          /\ configs (Config_store st' (R_Config sub) cfg') !! R_Config r = Some cfg)
    /\ (st', Env_Context (R_Environment sub))
       = Context_Inherit (with_configs st (configs st ++ [cfg]))
           (Env_Context (R_Environment r))
    /\ contexts st' !! Env_Context (R_Environment sub)
       = Some {| data := length (frames st);
                 parent := Some (Env_Context (R_Environment r)) |}
    /\ local_frame st' (Env_Context (R_Environment sub)) = Some ∅
    /\ Filters (R_Environment sub) = Filters (R_Environment r)
    /\ Statements (R_Environment sub) = Statements (R_Environment r)
    /\ Tests (R_Environment sub) = Tests (R_Environment r)
    /\ Output sub = Output r
    /\ R_Template sub = R_Template r
    /\ RootNode sub = RootNode r
    /\ R_Loader sub = R_Loader r.
Proof.
  intros Hcfg.
  assert (Hlt : R_Config r < length (configs st)) by by eapply lookup_lt_Some.
  unfold Renderer_Inherit, Config_Inherit. rewrite Hcfg. simpl.
  do 2 eexists. split; [reflexivity|]. simpl.
  split; [done|]. split; [lia|].
  split; [by rewrite list_lookup_middle|].
  split; [by rewrite lookup_app_l|].
  split.
  { intros cfg'. split.
    - apply list_lookup_insert_eq. rewrite length_app. simpl. lia.
    - rewrite list_lookup_insert_ne by lia. by rewrite lookup_app_l. }
  split; [done|].
  split; [by rewrite list_lookup_middle|].
  split.
  { unfold local_frame. simpl. rewrite list_lookup_middle by done. simpl.
    by rewrite list_lookup_middle. }
  done.
Qed.

(** C10. [NewRenderer] writes to the environment it is given: once it has
    returned, the context of that environment binds "self" to what [Self]
    makes of the new renderer, and every other name is bound as before. *)
Theorem NewRenderer_binds_self (st : State) (environment : Environment)
    (output config : loc) (loader : Loader) (template : Template)
    (cfg : Config) (cell : Context) (fr : gmap string any) :
  wf_State st = true ->
  configs st !! config = Some cfg ->
  contexts st !! Env_Context environment = Some cell ->
  frames st !! data cell = Some fr ->
  exists st' r,
    NewRenderer st environment output config loader template = Some (st', r)
    /\ R_Environment r = environment
    /\ frames st' = <[data cell := <["self" := ASelf (Self r)]> fr]> (frames st)
    /\ contexts st' = contexts st
    /\ local_frame st' (Env_Context environment)
       = Some (<["self" := ASelf (Self r)]> fr)
    /\ Context_Get st' (Env_Context environment) "self"
       = Some (ASelf (Self r), true)
    /\ (forall name, name <> "self" ->
          (<["self" := ASelf (Self r)]> fr) !! name = fr !! name
          /\ Context_Get st' (Env_Context environment) name
             = Context_Get st (Env_Context environment) name
          /\ Context_Has st' (Env_Context environment) name
             = Context_Has st (Env_Context environment) name).
Proof.
  intros Hwf Hcfg Hcell Hfr.
  assert (Hd : data cell < length (frames st)) by by eapply lookup_lt_Some.
  assert (Hc : Env_Context environment < length (contexts st))
    by by eapply lookup_lt_Some.
  unfold NewRenderer, Config_Inherit, Context_Set, frame_assign.
  rewrite Hcfg. simpl. rewrite Hcell. simpl. rewrite Hfr. simpl.
  do 2 eexists. split; [reflexivity|]. simpl.
  split; [done|]. split; [done|]. split; [done|].
  split; [|split].
  - unfold local_frame. simpl. rewrite Hcell. simpl.
    by apply list_lookup_insert_eq.
  - unfold Context_Get. simpl.
    destruct (length (contexts st)) as [|k] eqn:Hlen; [lia|]. simpl.
    rewrite Hcell. simpl. rewrite list_lookup_insert_eq by done. simpl.
    by rewrite lookup_insert_eq.
  - intros name Hne.
    match goal with |- context [ASelf ?s] => set (self := ASelf s) end.
    assert (Hkeeps : keeps name st
              (with_configs
                 (with_frames st (<[data cell := <["self" := self]> fr]> (frames st)))
                 (configs st ++ [cfg]))).
    { destruct (keeps_frame_insert name st (data cell) fr (<["self" := self]> fr))
        as [Hk1 Hk2]; [done|by apply lookup_insert_ne|].
      split; [exact Hk1|exact Hk2]. }
    split; [by apply lookup_insert_ne|]. split.
    + by apply (Context_Get_keeps name st).
    + by apply (Context_Has_keeps name st).
Qed.

End RendererFacts.

(** ** The import statements *)

Section ImportFacts.
Context {T : Types} {O : Ops}.

Lemma elem_of_range {V : Type} (it : MapIter) (m : gmap string V) (k : string) (v : V) :
  (k, v) ∈ range it m <-> m !! k = Some v.
Proof. rewrite (range_perm it V m). apply elem_of_map_to_list. Qed.

Lemma NoDup_range {V : Type} (it : MapIter) (m : gmap string V) :
  NoDup (range it m).*1.
Proof. rewrite (range_perm it V m). apply NoDup_fst_map_to_list. Qed.

Lemma not_elem_of_range {V : Type} (it : MapIter) (m : gmap string V) (k : string) :
  k ∉ (range it m).*1 <-> m !! k = None.
Proof.
  rewrite (range_perm it V m). split.
  - intros Hk. destruct (m !! k) as [v|] eqn:Hv; [|done].
    exfalso. apply Hk. apply list_elem_of_fmap. exists (k, v).
    split; [done|]. by apply elem_of_map_to_list.
  - intros Hnone Hin. apply list_elem_of_fmap in Hin as ([k' v] & -> & Hin).
    apply elem_of_map_to_list in Hin. simpl in *. congruence.
Qed.

(** What the loop of [ImportStmt.Execute] leaves in the table when no macro
    fails. *)
Lemma import_loop_table (st : State) (r : Renderer)
    (entries : list (string * MacroNode)) (acc macros : gmap string Macro) :
  NoDup entries.*1 ->
  import_loop st r entries acc = inl macros ->
  (forall name, name ∉ entries.*1 -> macros !! name = acc !! name)
  /\ (forall name node, (name, node) ∈ entries ->
        exists fn, MacroNodeToFunc st (Some node) r = inl fn
                   /\ macros !! name = Some fn).
Proof.
  revert acc. induction entries as [|[k nd] rest IH]; intros acc Hnd Hloop.
  - simpl in Hloop. injection Hloop as <-. split; [done|].
    intros name node Hin. by apply elem_of_nil in Hin.
  - rewrite fmap_cons in Hnd. apply NoDup_cons in Hnd as [Hk Hrest].
    simpl in Hloop, Hk.
    destruct (MacroNodeToFunc st (Some nd) r) as [fn|err] eqn:Hfn; [|done].
    destruct (IH _ Hrest Hloop) as [Hout Hin]. split.
    + intros name Hname. rewrite fmap_cons in Hname.
      apply not_elem_of_cons in Hname as [Hne Hname]. simpl in Hne.
      rewrite (Hout name Hname). by apply lookup_insert_ne.
    + intros name node Hmem. apply elem_of_cons in Hmem as [[= -> ->]|Hmem].
      * exists fn. split; [done|].
        rewrite (Hout k Hk). apply lookup_insert_eq.
      * by apply Hin.
Qed.

(** An error of [ImportStmt.Execute] comes before its only [Set]. *)
Lemma ImportStmt_Execute_error_unchanged (stmt : ImportStmt) (it : MapIter)
    (r : Renderer) (tag : StatementBlock) (st st' : State) (e : error) :
  ImportStmt_Execute stmt it r tag st = Some (st', Some e) -> st' = st.
Proof.
  unfold ImportStmt_Execute.
  destruct (IsError _); [by intros [= <- _]|].
  destruct (Loader_Inherit _ _); [|by intros [= <- _]].
  destruct (NewTemplate _ _ _ _ _); [|by intros [= <- _]].
  destruct (import_loop _ _ _ _); [|by intros [= <- _]].
  destruct (Context_Set _ _ _ _); simpl; [|done]. by intros [= _].
Qed.

(** A failure to resolve the template in [FromImportStmt.Execute] comes
    before any [Set]. *)
Lemma FromImportStmt_Execute_resolve_error_unchanged (stmt : FromImportStmt)
    (it : MapIter) (r : Renderer) (tag : StatementBlock) (st : State) :
  let filenameValue := Renderer_Eval st r (FilenameExpression stmt) in
  let filename := Value_String filenameValue in
  IsError filenameValue = true
  \/ (exists e, Loader_Inherit (R_Loader r) filename = inr e)
  \/ (exists loader e,
        Loader_Inherit (R_Loader r) filename = inl loader
        /\ NewTemplate st filename (R_Config r) loader (R_Environment r) = inr e) ->
  exists e, FromImportStmt_Execute stmt it r tag st = Some (st, Some e).
Proof.
  intros filenameValue filename. unfold FromImportStmt_Execute.
  fold filenameValue. fold filename.
  destruct (IsError filenameValue) eqn:Herr; [by eauto|].
  intros [?|[[e He]|(loader & e & Hl & Ht)]]; [done| |].
  - rewrite He. eauto.
  - rewrite Hl, Ht. eauto.
Qed.

(** What the loop of [FromImportStmt.Execute] leaves in the local frame when
    no macro fails. *)
Lemma from_import_loop_bindings (r : Renderer) (imported : gmap string MacroNode)
    (entries : list (string * string)) (st st' : State) (cell : Context)
    (fr : gmap string any) :
  NoDup entries.*1 ->
  contexts st !! Env_Context (R_Environment r) = Some cell ->
  frames st !! data cell = Some fr ->
  from_import_loop r imported entries st = Some (st', None) ->
  exists fr',
    st' = with_frames st (<[data cell := fr']> (frames st))
    /\ (forall k, k ∉ entries.*1 -> fr' !! k = fr !! k)
    /\ (forall alias name, (alias, name) ∈ entries ->
          exists fn st_k, MacroNodeToFunc st_k (imported !! name) r = inl fn
                          /\ fr' !! alias = Some (AMacro fn)).
Proof.
  revert st fr. induction entries as [|[alias name] rest IH];
    intros st fr Hnd Hcell Hfr Hloop.
  - simpl in Hloop. injection Hloop as <-. exists fr.
    split; [|split; [done|]].
    + rewrite list_insert_id by done. by destruct st.
    + intros a n Hin. by apply elem_of_nil in Hin.
  - rewrite fmap_cons in Hnd. apply NoDup_cons in Hnd as [Hk Hrest].
    simpl in Hloop, Hk.
    destruct (MacroNodeToFunc st (imported !! name) r) as [fn|err] eqn:Hfn;
      [|done].
    unfold Context_Set, frame_assign in Hloop.
    rewrite Hcell in Hloop. simpl in Hloop. rewrite Hfr in Hloop. simpl in Hloop.
    assert (Hd : data cell < length (frames st)) by by eapply lookup_lt_Some.
    apply (IH _ (<[alias := AMacro fn]> fr) Hrest) in Hloop
      as (fr' & Hst' & Hout & Hin);
      [|done|simpl; by apply list_lookup_insert_eq].
    exists fr'. split; [|split].
    + rewrite Hst'. unfold with_frames. simpl.
      by rewrite list_insert_insert_eq.
    + intros k Hname. rewrite fmap_cons in Hname.
      apply not_elem_of_cons in Hname as [Hne Hname]. simpl in Hne.
      rewrite (Hout k Hname). by apply lookup_insert_ne.
    + intros a n Hmem. apply elem_of_cons in Hmem as [[= -> ->]|Hmem].
      * exists fn, st. split; [done|].
        rewrite (Hout alias Hk). apply lookup_insert_eq.
      * by apply Hin.
Qed.

(** C8. A successful [ImportStmt.Execute] assigns one name in the local
    frame of the current context, the alias, to a table that holds a callable
    for each macro of the loaded template and nothing else; every name other
    than the alias is bound as before. A successful [FromImportStmt.Execute]
    binds each alias of the statement to a callable made from the macro it
    names; a name that is not an alias of the statement, such as the
    original name of a macro imported under another name, is bound as
    before. *)
Theorem import_statements_bindings (it : MapIter) (r : Renderer)
    (tag : StatementBlock) (st : State) (cell : Context) (fr : gmap string any) :
  contexts st !! Env_Context (R_Environment r) = Some cell ->
  frames st !! data cell = Some fr ->
  (forall (stmt : ImportStmt) (st' : State),
     ImportStmt_Execute stmt it r tag st = Some (st', None) ->
     exists (loader : Loader) (template : Template) (macros : gmap string Macro),
       let filename := Value_String (Renderer_Eval st r (filenameExpression stmt)) in
       Loader_Inherit (R_Loader r) filename = inl loader
       /\ NewTemplate st filename (R_Config r) loader (R_Environment r) = inl template
       /\ (forall name, macros !! name = None <->
                         Template_Macros template !! name = None)
       /\ (forall name node, Template_Macros template !! name = Some node ->
             exists fn, MacroNodeToFunc st (Some node) r = inl fn
                        /\ macros !! name = Some fn)
       /\ st' = with_frames st
                  (<[data cell := <[as_ stmt := AMacros macros]> fr]> (frames st))
       /\ local_frame st' (Env_Context (R_Environment r))
          = Some (<[as_ stmt := AMacros macros]> fr)
       /\ (forall name, name <> as_ stmt ->
             (<[as_ stmt := AMacros macros]> fr) !! name = fr !! name))
  /\ (forall (stmt : FromImportStmt) (st' : State),
     FromImportStmt_Execute stmt it r tag st = Some (st', None) ->
     exists (loader : Loader) (template : Template) (fr' : gmap string any),
       let filename := Value_String (Renderer_Eval st r (FilenameExpression stmt)) in
       Loader_Inherit (R_Loader r) filename = inl loader
       /\ NewTemplate st filename (R_Config r) loader (R_Environment r) = inl template
       /\ st' = with_frames st (<[data cell := fr']> (frames st))
       /\ local_frame st' (Env_Context (R_Environment r)) = Some fr'
       /\ (forall alias name, As stmt !! alias = Some name ->
             exists fn st_k,
               MacroNodeToFunc st_k (Template_Macros template !! name) r = inl fn
               /\ fr' !! alias = Some (AMacro fn))
       /\ (forall name, As stmt !! name = None -> fr' !! name = fr !! name)).
Proof.
  intros Hcell Hfr.
  assert (Hd : data cell < length (frames st)) by by eapply lookup_lt_Some.
  split.
  - intros stmt st'. unfold ImportStmt_Execute.
    destruct (IsError _); [done|].
    destruct (Loader_Inherit _ _) as [loader|] eqn:Hl; [|done].
    destruct (NewTemplate _ _ _ _ _) as [template|] eqn:Ht; [|done].
    destruct (import_loop _ _ _ _) as [macros|] eqn:Hloop; [|done].
    unfold Context_Set, frame_assign. rewrite Hcell. simpl. rewrite Hfr. simpl.
    intros [= <-]. exists loader, template, macros. simpl.
    apply import_loop_table in Hloop as [Hout Hin]; [|apply NoDup_range].
    split; [done|]. split; [done|]. split; [|split; [|split; [done|split]]].
    + intros name. split.
      * intros Hnone. destruct (Template_Macros template !! name) as [node|] eqn:Hn;
          [|done].
        destruct (Hin name node) as (fn & _ & Hfn); [by apply elem_of_range|].
        congruence.
      * intros Hnone. rewrite Hout by by apply not_elem_of_range. done.
    + intros name node Hn. apply Hin. by apply elem_of_range.
    + unfold local_frame. simpl. rewrite Hcell. simpl.
      by apply list_lookup_insert_eq.
    + intros name Hne. by apply lookup_insert_ne.
  - intros stmt st'. unfold FromImportStmt_Execute.
    destruct (IsError _); [done|].
    destruct (Loader_Inherit _ _) as [loader|] eqn:Hl; [|done].
    destruct (NewTemplate _ _ _ _ _) as [template|] eqn:Ht; [|done].
    intros Hloop.
    apply (from_import_loop_bindings _ _ _ _ _ cell fr) in Hloop
      as (fr' & -> & Hout & Hin); [|apply NoDup_range|done..].
    exists loader, template, fr'. simpl.
    split; [done|]. split; [done|]. split; [done|]. split; [|split].
    + unfold local_frame. simpl. rewrite Hcell. simpl.
      by apply list_lookup_insert_eq.
    + intros alias name Ha. apply Hin. by apply elem_of_range.
    + intros name Hnone. apply Hout. by apply not_elem_of_range.
Qed.

End ImportFacts.

(** C1. [FromImportStmt.Execute] calls [Set] inside its loop, so a macro
    that fails to wrap after another one was bound leaves that binding
    behind: on [from "broken" import foo, bad], the entry of foo being
    visited first, the call returns the error of bad and the local frame,
    empty at entry, binds foo. *)
Theorem FromImportStmt_Execute_partial_binding :
  exists st' e,
    FromImportStmt_Execute (O := Demo.ops) Demo.from_broken Demo.forwards
      Demo.r0 () Demo.st0 = Some (st', Some e)
    /\ e = Wrapf (ErrorNew "Unable to evaluate parameter")
             "Unable to import macro '%s'" [EStr "bad"]
    /\ local_frame Demo.st0 (Env_Context (R_Environment Demo.r0)) = Some ∅
    /\ local_frame st' (Env_Context (R_Environment Demo.r0))
       = Some {[ "foo" := AMacro (T := Demo.types) "FOO" ]}.
Proof. do 2 eexists. split; [vm_compute; reflexivity|]. by vm_compute. Qed.

(** ** Concrete runs *)

(** In the first registry "upper" is taken and "title" is free; the second
    registry brings "upper" and "lower". *)
Lemma registry_override_discipline_witness :
  Demo.registries !! 0 = Some {[ "upper" := 1 ]}
  /\ Register "taken" Demo.registries 0 "upper" 7
     = Some (Demo.registries, Some (RegErrorf "taken" [ArgStr "upper"]))
  /\ Replace "missing" Demo.registries 0 "title" 7
     = Some (Demo.registries, Some (RegErrorf "missing" [ArgStr "title"]))
  /\ Update Demo.forwards Demo.registries 0 1
     = Some (<[0 := {[ "upper" := 2; "lower" := 3 ]} ∪ {[ "upper" := 1 ]}]>
               Demo.registries, 0).
Proof.
  split; [reflexivity|].
  destruct (registry_override_discipline "taken" "missing" Demo.forwards
              Demo.registries 0 1 {[ "upper" := 1 ]}
              {[ "upper" := 2; "lower" := 3 ]} "upper" 7 eq_refl eq_refl)
    as (Hreg & _ & _ & _ & Hupd).
  destruct (registry_override_discipline "taken" "missing" Demo.forwards
              Demo.registries 0 1 {[ "upper" := 1 ]}
              {[ "upper" := 2; "lower" := 3 ]} "title" 7 eq_refl eq_refl)
    as (_ & _ & Hrep & _ & _).
  split; [apply Hreg; eexists; vm_compute; reflexivity|].
  split; [apply Hrep; vm_compute; reflexivity|].
  exact Hupd.
Defined.

(** Scope 1 has the root, which binds x, as its parent. *)
Lemma Context_Set_shadows_never_mutates_witness :
  wf_State Demo.st0 = true
  /\ exists st2,
       Context_Set (Context_Inherit Demo.st0 1).1 (Context_Inherit Demo.st0 1).2
         "x" (Demo.dyn 9) = Some st2
       /\ Context_Get st2 (Context_Inherit Demo.st0 1).2 "x"
          = Some (Demo.dyn 9, true)
       /\ Context_Get st2 1 "x" = Context_Get Demo.st0 1 "x".
Proof.
  split; [reflexivity|].
  destruct (Context_Set_shadows_never_mutates (T := Demo.types) Demo.st0 1 0
              {| data := 1; parent := Some 0 |}
              {[ "x" := Demo.dyn 1; "y" := Demo.dyn 2 ]}
              "x" (Demo.dyn 1) (Demo.dyn 9))
    as (st2 & Hset & Hget & Hsame & _); try reflexivity.
  exists st2. auto.
Defined.

(** From the innermost of the three nested scopes. *)
Lemma Context_Get_Has_resolve_witness :
  wf_State Demo.st0 = true
  /\ 2 < length (contexts Demo.st0)
  /\ exists chain,
       scope_chain Demo.st0 2 = Some chain
       /\ Context_Get Demo.st0 2 "x"
          = Some (match first_match chain "x" with
                  | Some v => (v, true)
                  | None => (nil, false)
                  end)
       /\ Context_Has Demo.st0 2 "x"
          = Some (bool_decide (is_Some (first_match chain "x"))).
Proof.
  split; [reflexivity|]. split; [simpl; lia|].
  destruct (Context_Get_Has_resolve (T := Demo.types) Demo.st0 2 "x")
    as (chain & Hchain & Hget & Hhas & _); [reflexivity|simpl; lia|].
  exists chain. auto.
Defined.

(** The separate root scope 3 is updated from scope 1, whose parent binds
    x. *)
Lemma Context_Update_local_entries_only_witness :
  wf_State Demo.st0 = true
  /\ Context_Has Demo.st0 1 "x" = Some true
  /\ Context_Has Demo.st0 3 "x" = Some false
  /\ exists st',
       Context_Update Demo.forwards Demo.st0 3 1 = Some (st', 3)
       /\ local_frame st' 3
          = Some ({[ "y" := Demo.dyn 3 ]} ∪ {[ "k" := Demo.dyn 4 ]})
       /\ Context_Has st' 3 "x" = Some false.
Proof.
  split; [reflexivity|]. split; [reflexivity|]. split; [reflexivity|].
  destruct (Context_Update_local_entries_only (T := Demo.types) Demo.forwards
              Demo.st0 3 1 {| data := 3; parent := None |}
              {| data := 1; parent := Some 0 |}
              {[ "k" := Demo.dyn 4 ]} {[ "y" := Demo.dyn 3 ]})
    as (st' & Hupd & _ & Hframe & _ & _ & Hno); try reflexivity.
  exists st'. split; [exact Hupd|]. split; [exact Hframe|].
  apply Hno; reflexivity.
Defined.

Lemma Visit_Output_condition_witness :
  Renderer_Visit (O := Demo.ops) Demo.forwards Demo.st0 Demo.r0
    (NOutput Demo.out_error)
  = Some (Demo.st0,
          (None, Some (Wrapf (ValueError (T := Demo.types) (Demo.Err "boom"))
                         "Unable to render condition at line %d: %s"
                         [EInt 1%Z; EStr "boom"])))
  /\ Renderer_Visit (O := Demo.ops) Demo.forwards Demo.st0 Demo.r0
       (NOutput Demo.out_false)
     = Some (Demo.st0, (None, None)).
Proof.
  split.
  - apply (Visit_Output_condition (O := Demo.ops) Demo.forwards Demo.st0 Demo.r0
             Demo.out_error (Demo.Err "boom") eq_refl).
    reflexivity.
  - apply (Visit_Output_condition (O := Demo.ops) Demo.forwards Demo.st0 Demo.r0
             Demo.out_false (Demo.Bool false) eq_refl).
    + reflexivity.
    + right. reflexivity.
    + reflexivity.
Defined.

(** Autoescaping is on in the configuration of the renderer. *)
Lemma Visit_Output_autoescape_witness :
  chosen_expression (O := Demo.ops) Demo.st0 Demo.r0 Demo.out_bold
  = Some (Demo.Str "<b>" false)
  /\ Renderer_Visit (O := Demo.ops) Demo.forwards Demo.st0 Demo.r0
       (NOutput Demo.out_bold)
     = Some (with_builders Demo.st0 [ "&lt;b&gt;" ], (None, None)).
Proof.
  split; [reflexivity|].
  apply (Visit_Output_autoescape (O := Demo.ops) Demo.forwards Demo.st0 Demo.r0
           Demo.out_bold (Demo.Str "<b>" false)
           Demo.cfg0 EmptyString);
    reflexivity.
Defined.

Lemma Renderer_Inherit_clone_and_share_witness :
  configs Demo.st0 !! R_Config Demo.r0
  = Some Demo.cfg0
  /\ exists st' sub,
       Renderer_Inherit (T := Demo.types) Demo.st0 Demo.r0 = Some (st', sub)
       /\ R_Config sub <> R_Config Demo.r0
       /\ configs st' !! R_Config sub
          = Some Demo.cfg0
       /\ Output sub = Output Demo.r0.
Proof.
  split; [reflexivity|].
  destruct (Renderer_Inherit_clone_and_share (T := Demo.types) Demo.st0 Demo.r0
              Demo.cfg0 eq_refl)
    as (st' & sub & Hinh & _ & Hne & Hcfg & _ & _ & _ & _ & _ & _ & _ & _ & Hout & _).
  exists st', sub. auto.
Defined.

Lemma NewRenderer_binds_self_witness :
  wf_State Demo.st0 = true
  /\ exists st' r,
       NewRenderer (O := Demo.ops) Demo.st0 Demo.env0 0 0 "loader" Demo.lib
       = Some (st', r)
       /\ Context_Get st' (Env_Context Demo.env0) "self"
          = Some (ASelf (Self (Ops := Demo.ops) r), true)
       /\ Context_Get st' (Env_Context Demo.env0) "x"
          = Context_Get Demo.st0 (Env_Context Demo.env0) "x".
Proof.
  split; [reflexivity|].
  destruct (NewRenderer_binds_self (O := Demo.ops) Demo.st0 Demo.env0 0 0
              "loader" Demo.lib Demo.cfg0
              {| data := 2; parent := Some 1 |} ∅)
    as (st' & r & Hnew & _ & _ & _ & _ & Hself & Hother); try reflexivity.
  exists st', r. split; [exact Hnew|]. split; [exact Hself|].
  apply Hother. discriminate.
Defined.

(** [import "lib" as L] and [from "lib" import foo as bar] in the innermost
    scope, whose frame is empty. *)
Lemma import_statements_bindings_witness :
  (exists st',
     ImportStmt_Execute (O := Demo.ops) Demo.import_lib Demo.forwards Demo.r0 ()
       Demo.st0 = Some (st', None)
     /\ exists macros,
          local_frame st' 2 = Some (<["L" := AMacros macros]> ∅)
          /\ (forall name, macros !! name = None <-> Demo.lib !! name = None))
  /\ (exists st',
     FromImportStmt_Execute (O := Demo.ops) Demo.from_lib Demo.forwards Demo.r0 ()
       Demo.st0 = Some (st', None)
     /\ exists fr',
          local_frame st' 2 = Some fr'
          /\ (exists fn, fr' !! "bar" = Some (AMacro fn))
          /\ fr' !! "foo" = None).
Proof.
  destruct (import_statements_bindings (O := Demo.ops) Demo.forwards Demo.r0 ()
              Demo.st0 {| data := 2; parent := Some 1 |} ∅ eq_refl eq_refl)
    as [Himport Hfrom].
  split.
  - destruct (ImportStmt_Execute (O := Demo.ops) Demo.import_lib Demo.forwards
                Demo.r0 () Demo.st0) as [[st' [e|]]|] eqn:Hexec;
      [vm_compute in Hexec; discriminate Hexec| |
       vm_compute in Hexec; discriminate Hexec].
    exists st'. split; [reflexivity|].
    destruct (Himport Demo.import_lib st' Hexec)
      as (loader & template & macros & Hl & Ht & Hdom & _ & _ & Hframe & _).
    exists macros. split; [exact Hframe|].
    vm_compute in Ht. injection Ht as <-. exact Hdom.
  - destruct (FromImportStmt_Execute (O := Demo.ops) Demo.from_lib Demo.forwards
                Demo.r0 () Demo.st0) as [[st' [e|]]|] eqn:Hexec;
      [vm_compute in Hexec; discriminate Hexec| |
       vm_compute in Hexec; discriminate Hexec].
    exists st'. split; [reflexivity|].
    destruct (Hfrom Demo.from_lib st' Hexec)
      as (loader & template & fr' & _ & _ & _ & Hframe & Hbound & Hother).
    exists fr'. split; [exact Hframe|]. split.
    + destruct (Hbound "bar" "foo" eq_refl) as (fn & _ & _ & Hbar). eauto.
    + rewrite (Hother "foo") by reflexivity. reflexivity.
Defined.

(** The trim directive of a Data node: both sides trimmed, and untouched. *)
Example Visit_Data_trim :
  Renderer_Visit (O := Demo.ops) Demo.forwards Demo.st0 Demo.r0
    (NData "  hello  " true true)
  = Some (with_builders Demo.st0 [ "hello" ], (None, None))
  /\ Renderer_Visit (O := Demo.ops) Demo.forwards Demo.st0 Demo.r0
       (NData "  hello  " false false)
     = Some (with_builders Demo.st0 [ "  hello  " ], (None, None)).
Proof. split; reflexivity. Qed.

(** With the entry of bad visited first, [from "broken" import foo, bad]
    fails before any [Set]. *)
Example FromImportStmt_Execute_bad_first :
  FromImportStmt_Execute (O := Demo.ops) Demo.from_broken Demo.backwards
    Demo.r0 () Demo.st0
  = Some (Demo.st0,
          Some (Wrapf (ErrorNew "Unable to evaluate parameter")
                  "Unable to import macro '%s'" [EStr "bad"])).
Proof. vm_compute. reflexivity. Qed.

(** The string marked safe is written as it is, autoescaping being on. *)
Example Visit_Output_safe :
  Renderer_Visit (O := Demo.ops) Demo.forwards Demo.st0 Demo.r0
    (NOutput Demo.out_safe)
  = Some (with_builders Demo.st0 [ "<b>" ], (None, None)).
Proof. reflexivity. Qed.

(** * Further properties of the code *)

(** ** Context: writes, reads and the parent link *)

Section ContextMore.
Context {T : Types}.

(** One step of a lookup: a name the local frame lacks is resolved by the
    parent. *)
Lemma Get_fuel_parent (st : State) (fuel : nat) (ctx p : loc) (c : Context)
    (m : gmap string any) (name : string) :
  contexts st !! ctx = Some c -> frames st !! data c = Some m ->
  m !! name = None -> parent c = Some p ->
  Get_fuel (S fuel) st ctx name = Get_fuel fuel st p name
  /\ Has_fuel (S fuel) st ctx name = Has_fuel fuel st p name.
Proof.
  intros Hc Hm Hname Hp. simpl. rewrite Hc. simpl. rewrite Hm. simpl.
  rewrite Hname, Hp. split; [done|].
  by rewrite bool_decide_eq_false_2 by by intros [? ?].
Qed.

(** One step of a lookup: a name the local frame binds is found there. *)
Lemma Get_fuel_local (st : State) (fuel : nat) (ctx : loc) (c : Context)
    (m : gmap string any) (name : string) (v : any) :
  contexts st !! ctx = Some c -> frames st !! data c = Some m ->
  m !! name = Some v ->
  Get_fuel (S fuel) st ctx name = Some (v, true)
  /\ Has_fuel (S fuel) st ctx name = Some true.
Proof.
  intros Hc Hm Hname. simpl. rewrite Hc. simpl. rewrite Hm. simpl.
  rewrite Hname. split; [done|].
  by rewrite bool_decide_eq_true_2 by eauto.
Qed.

(** X1. What [Set] stored is what [Get] returns: after [ctx.Set(name, v)],
    [ctx.Get(name)] is (v, true) and [ctx.Has(name)] is true, whatever the
    parents of [ctx] bind. *)
Theorem Context_Set_then_Get (st st' : State) (ctx : loc) (name : string)
    (v : any) :
  Context_Set st ctx name v = Some st' ->
  Context_Get st' ctx name = Some (v, true)
  /\ Context_Has st' ctx name = Some true.
Proof.
  unfold Context_Set, frame_assign.
  destruct (contexts st !! ctx) as [c|] eqn:Hc; [|done]. simpl.
  destruct (frames st !! data c) as [m|] eqn:Hm; [|done]. simpl.
  intros [= <-]. unfold Context_Get, Context_Has. simpl.
  assert (Hlt : ctx < length (contexts st)) by by eapply lookup_lt_Some.
  assert (Hd : data c < length (frames st)) by by eapply lookup_lt_Some.
  destruct (length (contexts st)) as [|k]; [lia|]. simpl.
  rewrite Hc. simpl. rewrite list_lookup_insert_eq by done. simpl.
  rewrite lookup_insert_eq. split; [done|].
  by rewrite bool_decide_eq_true_2 by eauto.
Qed.

(** X2. [Set] of one name changes no other name: in every context of the
    state, [Get] and [Has] of a different name answer as before, and the
    contexts, configurations and builders are untouched. *)
Theorem Context_Set_other_names (st st' : State) (ctx : loc) (name : string)
    (v : any) :
  wf_State st = true ->
  Context_Set st ctx name v = Some st' ->
  contexts st' = contexts st /\ configs st' = configs st
  /\ builders st' = builders st
  /\ (forall c' name', name' <> name -> c' < length (contexts st) ->
        Context_Get st' c' name' = Context_Get st c' name'
        /\ Context_Has st' c' name' = Context_Has st c' name').
Proof.
  intros Hwf. unfold Context_Set, frame_assign.
  destruct (contexts st !! ctx) as [c|] eqn:Hc; [|done]. simpl.
  destruct (frames st !! data c) as [m|] eqn:Hm; [|done]. simpl.
  intros [= <-]. split; [done|]. split; [done|]. split; [done|].
  intros c' name' Hne Hlt.
  assert (Hk : keeps name' st
            (with_frames st (<[data c := <[name := v]> m]> (frames st)))).
  { apply (keeps_frame_insert name' st (data c) m); [done|].
    by apply lookup_insert_ne. }
  split; [by apply Context_Get_keeps|by apply Context_Has_keeps].
Qed.

Lemma Inherit_keeps (st : State) (ctx : loc) (name : string) :
  keeps name st (Context_Inherit st ctx).1.
Proof.
  split; simpl.
  - intros i c Hc. rewrite lookup_app_l; [done|]. by eapply lookup_lt_Some.
  - intros d m Hm. exists m. rewrite lookup_app_l; [done|].
    by eapply lookup_lt_Some.
Qed.

Lemma Inherit_child_lookup (st : State) (ctx : loc) (name : string) :
  wf_State st = true ->
  ctx < length (contexts st) ->
  Context_Get (Context_Inherit st ctx).1 (length (contexts st)) name
  = Context_Get st ctx name
  /\ Context_Has (Context_Inherit st ctx).1 (length (contexts st)) name
     = Context_Has st ctx name.
Proof.
  intros Hwf Hlt.
  assert (Hcell : contexts (Context_Inherit st ctx).1 !! length (contexts st)
                  = Some {| data := length (frames st); parent := Some ctx |}).
  { simpl. by rewrite list_lookup_middle. }
  assert (Hframe : frames (Context_Inherit st ctx).1 !! length (frames st)
                   = Some ∅).
  { simpl. by rewrite list_lookup_middle. }
  unfold Context_Get, Context_Has.
  replace (length (contexts (Context_Inherit st ctx).1))
    with (S (length (contexts st)))
    by (simpl; rewrite length_app; simpl; lia).
  destruct (Get_fuel_parent (Context_Inherit st ctx).1 (length (contexts st))
              (length (contexts st)) ctx _ ∅ name Hcell Hframe)
    as [-> ->]; [done..|].
  split.
  - by apply Get_fuel_keeps; [|apply Inherit_keeps|].
  - by apply Has_fuel_keeps; [|apply Inherit_keeps|].
Qed.

(** A change of configurations and builders is no change for the scopes. *)
Lemma keeps_same_scopes (name : string) (st st' : State) :
  contexts st' = contexts st -> frames st' = frames st -> keeps name st st'.
Proof. intros Hc Hf. split; [by rewrite Hc|]. rewrite Hf. eauto. Qed.

(** X3. [Inherit] copies nothing and hides nothing: the new context has an
    empty local frame and resolves every name exactly as its parent does,
    and the contexts that existed resolve every name as before. *)
Theorem Context_Inherit_resolves_as_parent (st : State) (ctx : loc) :
  wf_State st = true ->
  ctx < length (contexts st) ->
  local_frame (Context_Inherit st ctx).1 (Context_Inherit st ctx).2 = Some ∅
  /\ (forall name,
        Context_Get (Context_Inherit st ctx).1 (Context_Inherit st ctx).2 name
        = Context_Get st ctx name
        /\ Context_Has (Context_Inherit st ctx).1 (Context_Inherit st ctx).2 name
           = Context_Has st ctx name)
  /\ (forall c' name, c' < length (contexts st) ->
        Context_Get (Context_Inherit st ctx).1 c' name = Context_Get st c' name
        /\ Context_Has (Context_Inherit st ctx).1 c' name
           = Context_Has st c' name).
Proof.
  intros Hwf Hlt.
  assert (Hcell : contexts (Context_Inherit st ctx).1 !! length (contexts st)
                  = Some {| data := length (frames st); parent := Some ctx |}).
  { simpl. by rewrite list_lookup_middle. }
  assert (Hframe : frames (Context_Inherit st ctx).1 !! length (frames st)
                   = Some ∅).
  { simpl. by rewrite list_lookup_middle. }
  split; [|split].
  - unfold local_frame. change ((Context_Inherit st ctx).2) with (length (contexts st)).
    by rewrite Hcell.
  - intros name. change ((Context_Inherit st ctx).2) with (length (contexts st)).
    unfold Context_Get, Context_Has.
    replace (length (contexts (Context_Inherit st ctx).1))
      with (S (length (contexts st)))
      by (simpl; rewrite length_app; simpl; lia).
    destruct (Get_fuel_parent (Context_Inherit st ctx).1 (length (contexts st))
                (length (contexts st)) ctx _ ∅ name Hcell Hframe)
      as [-> ->]; [done..|].
    split.
    + by apply Get_fuel_keeps; [|apply Inherit_keeps|].
    + by apply Has_fuel_keeps; [|apply Inherit_keeps|].
  - intros c' name Hc'. split.
    + by apply Context_Get_keeps; [|apply Inherit_keeps|].
    + by apply Context_Has_keeps; [|apply Inherit_keeps|].
Qed.

(** X4. The child holds a link to its parent, not a copy: a [Set] on the
    parent made after [c2 := c.Inherit()] is seen through [c2]. *)
Theorem Context_parent_Set_seen_by_child (st st2 : State) (c : loc)
    (name : string) (v : any) :
  wf_State st = true ->
  c < length (contexts st) ->
  Context_Set (Context_Inherit st c).1 c name v = Some st2 ->
  Context_Get st2 (Context_Inherit st c).2 name = Some (v, true)
  /\ Context_Has st2 (Context_Inherit st c).2 name = Some true.
Proof.
  intros Hwf Hlt. unfold Context_Set, frame_assign. simpl.
  rewrite lookup_app_l by done.
  destruct (contexts st !! c) as [cell|] eqn:Hc; [|done]. simpl.
  destruct (wf_State_lookup _ _ _ Hwf Hc) as [Hd _].
  rewrite lookup_app_l by done.
  destruct (frames st !! data cell) as [m|] eqn:Hm; [|done]. simpl.
  intros [= <-].
  set (st2 := with_frames _ _).
  assert (Hcell2 : contexts st2 !! length (contexts st)
                   = Some {| data := length (frames st); parent := Some c |}).
  { simpl. by rewrite list_lookup_middle. }
  assert (Hframe2 : frames st2 !! length (frames st) = Some ∅).
  { simpl. rewrite list_lookup_insert_ne by lia. by rewrite list_lookup_middle. }
  assert (Hcell : contexts st2 !! c = Some cell).
  { simpl. by rewrite lookup_app_l. }
  assert (Hframe : frames st2 !! data cell = Some (<[name := v]> m)).
  { simpl. apply list_lookup_insert_eq. rewrite length_app. lia. }
  unfold Context_Get, Context_Has.
  replace (length (contexts st2)) with (S (length (contexts st)))
    by (simpl; rewrite length_app; simpl; lia).
  destruct (Get_fuel_parent st2 (length (contexts st)) (length (contexts st)) c
              _ ∅ name Hcell2 Hframe2) as [-> ->]; [done..|].
  destruct (length (contexts st)) as [|k]; [lia|].
  apply (Get_fuel_local st2 k c cell (<[name := v]> m)); [done..|].
  apply lookup_insert_eq.
Qed.

(** X5. [Has] and [Get] never disagree: [Has] answers with the found flag
    of [Get], and a [Get] that finds nothing returns nil. *)
Theorem Context_Get_Has_agree (st : State) (ctx : loc) (name : string) :
  wf_State st = true ->
  ctx < length (contexts st) ->
  exists v b,
    Context_Get st ctx name = Some (v, b)
    /\ Context_Has st ctx name = Some b
    /\ (b = false -> v = nil).
Proof.
  intros Hwf Hlt.
  destruct (chain_fuel_first_match st name (length (contexts st)) ctx)
    as (chain & _ & _ & Hget & Hhas); [done..|].
  unfold Context_Get, Context_Has. rewrite Hget, Hhas.
  destruct (first_match chain name) as [v|].
  - exists v, true. by rewrite bool_decide_eq_true_2 by eauto.
  - exists nil, false. by rewrite bool_decide_eq_false_2 by by intros [? ?].
Qed.

(** X6. [EmptyContext] gives a context that binds nothing: every [Get] on
    it returns (nil, false), every [Has] false, and the contexts and frames
    that existed are still there as they were. *)
Theorem EmptyContext_binds_nothing (st : State) (name : string) :
  Context_Get (EmptyContext st).1 (EmptyContext st).2 name = Some (nil, false)
  /\ Context_Has (EmptyContext st).1 (EmptyContext st).2 name = Some false
  /\ keeps name st (EmptyContext st).1.
Proof.
  unfold Context_Get, Context_Has. simpl.
  rewrite length_app, Nat.add_comm. simpl.
  rewrite list_lookup_middle by done. simpl.
  rewrite list_lookup_middle by done. simpl.
  split; [done|]. split; [done|]. split; simpl.
  - intros i c Hc. rewrite lookup_app_l; [done|]. by eapply lookup_lt_Some.
  - intros d m Hm. exists m. rewrite lookup_app_l; [done|].
    by eapply lookup_lt_Some.
Qed.

(** X7. [NewContext] keeps the map it is given and does not copy it: the
    new context starts with the entries of that map, a [Set] through it
    writes that very map, and every context built on the same map then
    finds the value. *)
Theorem NewContext_shares_map (st : State) (d : loc) (m : gmap string any)
    (name : string) (v : any) :
  frames st !! d = Some m ->
  local_frame (NewContext st d).1 (NewContext st d).2 = Some m
  /\ exists st2,
       Context_Set (NewContext st d).1 (NewContext st d).2 name v = Some st2
       /\ frames st2 !! d = Some (<[name := v]> m)
       /\ (forall c' cell', contexts st !! c' = Some cell' -> data cell' = d ->
             Context_Get st2 c' name = Some (v, true)
             /\ Context_Has st2 c' name = Some true).
Proof.
  intros Hm.
  assert (Hd : d < length (frames st)) by by eapply lookup_lt_Some.
  unfold local_frame, Context_Set, frame_assign. simpl.
  rewrite list_lookup_middle by done. simpl. rewrite Hm. simpl.
  split; [done|]. eexists. split; [reflexivity|]. simpl.
  split; [by apply list_lookup_insert_eq|].
  intros c' cell' Hc' Hdata. unfold Context_Get, Context_Has.
  match goal with |- context [Get_fuel _ ?s _ _] => set (st2 := s) end.
  replace (length (contexts st2)) with (S (length (contexts st)))
    by (simpl; rewrite length_app; simpl; lia).
  apply (Get_fuel_local st2 _ c' cell' (<[name := v]> m)).
  - simpl. rewrite lookup_app_l; [done|]. by eapply lookup_lt_Some.
  - simpl. rewrite Hdata. by apply list_lookup_insert_eq.
  - apply lookup_insert_eq.
Qed.

(** What [Update] returns when both contexts and their maps exist. *)
Lemma Context_Update_result (it : MapIter) (st : State) (a b : loc)
    (ca cb : Context) (fa fb : gmap string any) :
  contexts st !! a = Some ca -> frames st !! data ca = Some fa ->
  contexts st !! b = Some cb -> frames st !! data cb = Some fb ->
  Context_Update it st a b
  = Some (with_frames st (<[data ca := fb ∪ fa]> (frames st)), a).
Proof.
  intros Ha Hfa Hb Hfb. unfold Context_Update.
  rewrite Hb. simpl. rewrite Hfb. simpl.
  rewrite (update_loop_assign a ca _ st fa) by done. simpl.
  by rewrite assign_all_range.
Qed.

Lemma Context_Update_same_or_empty (it : MapIter) (st : State) (a b : loc)
    (ca cb : Context) (fa fb : gmap string any) :
  contexts st !! a = Some ca -> frames st !! data ca = Some fa ->
  contexts st !! b = Some cb -> frames st !! data cb = Some fb ->
  fb = ∅ \/ data cb = data ca ->
  Context_Update it st a b = Some (st, a).
Proof.
  intros Ha Hfa Hb Hfb Hcase.
  rewrite (Context_Update_result it st a b ca cb fa fb) by done.
  assert (fb ∪ fa = fa) as ->.
  { destruct Hcase as [-> | Heq].
    - by rewrite (left_id_L ∅ (∪)).
    - rewrite Heq in Hfb. assert (fb = fa) as -> by congruence.
      apply (idemp_L (∪)). }
  rewrite list_insert_id by done. by destruct st.
Qed.

(** X8. [Update] changes nothing when there is nothing new to copy: when
    the other context has an empty local frame, and when both contexts are
    built on the same map, as in [a.Update(a)]. *)
Theorem Context_Update_nothing_to_copy (it : MapIter) (st : State) (a b : loc)
    (ca cb : Context) (fa fb : gmap string any) :
  contexts st !! a = Some ca -> frames st !! data ca = Some fa ->
  contexts st !! b = Some cb -> frames st !! data cb = Some fb ->
  fb = ∅ \/ data cb = data ca ->
  Context_Update it st a b = Some (st, a).
Proof. apply Context_Update_same_or_empty. Qed.

(** X9. [Update] is idempotent: a second [a.Update(b)] leaves the state the
    first one produced. *)
Theorem Context_Update_idempotent (it it' : MapIter) (st st1 : State)
    (a b a1 : loc) (ca cb : Context) (fa fb : gmap string any) :
  contexts st !! a = Some ca -> frames st !! data ca = Some fa ->
  contexts st !! b = Some cb -> frames st !! data cb = Some fb ->
  Context_Update it st a b = Some (st1, a1) ->
  Context_Update it' st1 a b = Some (st1, a).
Proof.
  intros Ha Hfa Hb Hfb.
  rewrite (Context_Update_result it st a b ca cb fa fb) by done.
  intros [= <- <-].
  assert (Hd : data ca < length (frames st)) by by eapply lookup_lt_Some.
  destruct (decide (data cb = data ca)) as [Heq|Hne].
  - apply (Context_Update_same_or_empty it' _ a b ca cb (fb ∪ fa) (fb ∪ fa));
      simpl; try done.
    + by apply list_lookup_insert_eq.
    + rewrite Heq. by apply list_lookup_insert_eq.
    + by right.
  - rewrite (Context_Update_result it' _ a b ca cb (fb ∪ fa) fb); simpl; try done.
    + rewrite list_insert_insert_eq.
      by rewrite (assoc_L (∪)), (idemp_L (∪)).
    + by apply list_lookup_insert_eq.
    + by rewrite list_lookup_insert_ne.
Qed.

(** X10. Well-formedness (references in range, every parent older than its
    child) is kept by every operation of Context, so the lookups of a state
    built with them always return. *)
Theorem Context_operations_keep_wf (st : State) :
  wf_State st = true ->
  (forall d, d < length (frames st) -> wf_State (NewContext st d).1 = true)
  /\ wf_State (EmptyContext st).1 = true
  /\ (forall ctx, ctx < length (contexts st) ->
        wf_State (Context_Inherit st ctx).1 = true)
  /\ (forall ctx name v st',
        Context_Set st ctx name v = Some st' -> wf_State st' = true)
  /\ (forall it a b st' a',
        Context_Update it st a b = Some (st', a') -> wf_State st' = true).
Proof.
  intros Hwf. split; [|split; [|split; [|split]]].
  - intros d Hd. by apply wf_State_NewContext.
  - by apply wf_State_EmptyContext.
  - intros ctx Hctx. by apply wf_State_Inherit.
  - intros ctx name v st' Hset. by eapply wf_State_Set.
  - intros it a b st' a' Hupd. by eapply wf_State_Update.
Qed.

End ContextMore.

(** ** Registries: sequences of operations *)

Section RegistryMore.
Context {F : Type}.
Variable already_registered : string.
Variable does_not_exist : string.

Lemma Update_result (it : MapIter) (st : RegStore F) (fs other : loc)
    (m mo : gmap string F) :
  st !! fs = Some m -> st !! other = Some mo ->
  Update it st fs other = Some (<[fs := mo ∪ m]> st, fs).
Proof.
  intros Hm Hmo. unfold Update. rewrite Hmo. simpl.
  rewrite (reg_update_loop_assign _ _ _ m) by done. simpl.
  by rewrite assign_all_range.
Qed.

Lemma Exists_lookup (st : RegStore F) (fs : loc) (m : gmap string F)
    (name : string) :
  st !! fs = Some m ->
  Exists st fs name = Some (bool_decide (is_Some (m !! name))).
Proof. intros Hm. unfold Exists. by rewrite Hm. Qed.

(** X11. Registering a free name makes it exist with the capability given;
    from then on a second [Register] of the name fails and keeps the first
    capability, while [Replace], which failed before the name was
    registered, succeeds and installs the new one. *)
Theorem Register_then_Register_and_Replace (st : RegStore F) (fs : loc)
    (m : gmap string F) (name : string) (f1 f2 : F) :
  st !! fs = Some m ->
  m !! name = None ->
  Exists st fs name = Some false
  /\ Replace does_not_exist st fs name f2
     = Some (st, Some (RegErrorf does_not_exist [ArgStr name]))
  /\ exists st1,
       Register already_registered st fs name f1 = Some (st1, None)
       /\ Exists st1 fs name = Some true
       /\ (st1 !! fs ≫= fun m' => m' !! name) = Some f1
       /\ Register already_registered st1 fs name f2
          = Some (st1, Some (RegErrorf already_registered [ArgStr name]))
       /\ exists st2,
            Replace does_not_exist st1 fs name f2 = Some (st2, None)
            /\ Exists st2 fs name = Some true
            /\ (st2 !! fs ≫= fun m' => m' !! name) = Some f2.
Proof.
  intros Hm Hnone.
  assert (Hlt : fs < length st) by by eapply lookup_lt_Some.
  assert (Hex : Exists st fs name = Some false).
  { rewrite (Exists_lookup st fs m) by done.
    rewrite bool_decide_eq_false_2; [done|]. rewrite Hnone. by intros [? ?]. }
  split; [done|]. split.
  { unfold Replace. by rewrite Hex. }
  set (st1 := <[fs := <[name := f1]> m]> st).
  assert (Hm1 : st1 !! fs = Some (<[name := f1]> m))
    by by apply list_lookup_insert_eq.
  assert (Hex1 : Exists st1 fs name = Some true).
  { rewrite (Exists_lookup st1 fs _ name Hm1).
    rewrite bool_decide_eq_true_2; [done|]. rewrite lookup_insert_eq. eauto. }
  exists st1. split; [|split; [done|split; [|split]]].
  - unfold Register, reg_assign. rewrite Hex. simpl. by rewrite Hm.
  - rewrite Hm1. simpl. apply lookup_insert_eq.
  - unfold Register. by rewrite Hex1.
  - set (st2 := <[fs := <[name := f2]> (<[name := f1]> m)]> st1).
    assert (Hm2 : st2 !! fs = Some (<[name := f2]> (<[name := f1]> m))).
    { apply list_lookup_insert_eq. unfold st1. by rewrite length_insert. }
    exists st2. split; [|split].
    + unfold Replace, reg_assign. rewrite Hex1. simpl. by rewrite Hm1.
    + rewrite (Exists_lookup st2 fs _ name Hm2).
      rewrite bool_decide_eq_true_2; [done|]. rewrite lookup_insert_eq. eauto.
    + rewrite Hm2. simpl. apply lookup_insert_eq.
Qed.

Lemma Register_Replace_cases (st st' : RegStore F) (fs : loc)
    (name : string) (fn : F) (err : option registry_error) :
  Register already_registered st fs name fn = Some (st', err)
  \/ Replace does_not_exist st fs name fn = Some (st', err) ->
  (st' = st /\ is_Some err)
  \/ (exists m, st !! fs = Some m /\ st' = <[fs := <[name := fn]> m]> st
                /\ err = None).
Proof.
  unfold Register, Replace, Exists, reg_assign.
  destruct (st !! fs) as [m|] eqn:Hm; simpl; [|by intros [|]].
  intros [Hop|Hop]; destruct (bool_decide _); simpl in Hop;
    injection Hop as <- <-; eauto.
Qed.

(** X12. [Register] and [Replace] write at most one name of one registry:
    when either returns an error the store is as before, and when either
    succeeds every other registry of the store and every other name of the
    receiver is as before. *)
Theorem Register_Replace_touch_one_name (st st' : RegStore F) (fs : loc)
    (name : string) (fn : F) (err : option registry_error) :
  Register already_registered st fs name fn = Some (st', err)
  \/ Replace does_not_exist st fs name fn = Some (st', err) ->
  (is_Some err -> st' = st)
  /\ length st' = length st
  /\ (forall fs', fs' <> fs -> st' !! fs' = st !! fs')
  /\ (forall name', name' <> name ->
        (st' !! fs ≫= fun m' => m' !! name') = (st !! fs ≫= fun m => m !! name')
        /\ Exists st' fs name' = Exists st fs name').
Proof.
  intros Hop.
  apply Register_Replace_cases in Hop as [[-> Herr]|(m & Hm & -> & ->)].
  { done. }
  assert (Hlt : fs < length st) by by eapply lookup_lt_Some.
  split; [by intros [? ?]|]. split; [by rewrite length_insert|]. split.
  - intros fs' Hne. by rewrite list_lookup_insert_ne.
  - intros name' Hne. unfold Exists.
    rewrite list_lookup_insert_eq, Hm by done. simpl.
    by rewrite lookup_insert_ne.
Qed.

(** X13. [Update] does not depend on the order in which the runtime ranges
    over the other map, is idempotent, changes nothing when a registry is
    merged into itself, and never drops a name: afterwards a name exists in
    the receiver exactly when it existed in the receiver or in the other
    registry before. *)
Theorem Update_merge_laws (it it' : MapIter) (st : RegStore F) (fs other : loc)
    (m mo : gmap string F) :
  st !! fs = Some m ->
  st !! other = Some mo ->
  Update it st fs other = Update it' st fs other
  /\ Update it st fs fs = Some (st, fs)
  /\ exists st1,
       Update it st fs other = Some (st1, fs)
       /\ Update it' st1 fs other = Some (st1, fs)
       /\ (forall name,
             Exists st1 fs name = Some true <->
             Exists st fs name = Some true \/ Exists st other name = Some true).
Proof.
  intros Hm Hmo.
  assert (Hlt : fs < length st) by by eapply lookup_lt_Some.
  rewrite !(Update_result _ st fs other m mo) by done.
  split; [done|]. split.
  { rewrite (Update_result it st fs fs m m) by done.
    by rewrite (idemp_L (∪)), list_insert_id. }
  eexists. split; [reflexivity|].
  assert (Hm1 : <[fs := mo ∪ m]> st !! fs = Some (mo ∪ m))
    by by apply list_lookup_insert_eq.
  split.
  - destruct (decide (other = fs)) as [->|Hne].
    + assert (mo = m) as -> by congruence.
      rewrite (Update_result it' _ fs fs (m ∪ m) (m ∪ m)) by done.
      by rewrite (idemp_L (∪)), list_insert_insert_eq.
    + rewrite (Update_result it' _ fs other (mo ∪ m) mo); [|done|].
      * by rewrite list_insert_insert_eq, (assoc_L (∪)), (idemp_L (∪)).
      * by rewrite list_lookup_insert_ne.
  - intros name.
    rewrite (Exists_lookup _ fs (mo ∪ m)), (Exists_lookup st fs m),
      (Exists_lookup st other mo) by done.
    assert (Hiff : is_Some ((mo ∪ m) !! name) <->
                   is_Some (m !! name) \/ is_Some (mo !! name)).
    { rewrite lookup_union. unfold is_Some.
      destruct (mo !! name) as [x|], (m !! name) as [y|]; simpl;
        (split; [intros [? ?]|intros [[? ?]|[? ?]]]); simplify_eq; eauto. }
    split.
    + intros [= Hb]. apply bool_decide_eq_true in Hb. apply Hiff in Hb.
      destruct Hb; [left|right]; by rewrite bool_decide_eq_true_2.
    + intros Hb. rewrite bool_decide_eq_true_2; [done|]. apply Hiff.
      destruct Hb as [[= Hb]|[= Hb]]; apply bool_decide_eq_true in Hb; auto.
Qed.

End RegistryMore.

(** ** Trimming *)

Lemma string_app_nil_r (s : string) : s +:+ EmptyString = s.
Proof.
  induction s as [|c s IH]; [done|].
  change (String c (s +:+ EmptyString) = String c s). by rewrite IH.
Qed.

Lemma string_app_assoc (s1 s2 s3 : string) :
  (s1 +:+ s2) +:+ s3 = s1 +:+ (s2 +:+ s3).
Proof.
  induction s1 as [|c s1 IH]; [done|].
  change (String c ((s1 +:+ s2) +:+ s3) = String c (s1 +:+ (s2 +:+ s3))).
  by rewrite IH.
Qed.

Lemma string_rev_app_spec (s1 s2 : string) :
  String.rev_app s1 s2 = String.rev s1 +:+ s2.
Proof.
  unfold String.rev. revert s2.
  induction s1 as [|c s1 IH]; intros s2; [done|]. simpl.
  rewrite IH, (IH (String c EmptyString)). by rewrite string_app_assoc.
Qed.

Lemma string_rev_cons (c : Ascii.ascii) (s : string) :
  String.rev (String c s) = String.rev s +:+ String c EmptyString.
Proof. unfold String.rev at 1. simpl. apply string_rev_app_spec. Qed.

Lemma string_rev_app (s1 s2 : string) :
  String.rev (s1 +:+ s2) = String.rev s2 +:+ String.rev s1.
Proof.
  induction s1 as [|c s1 IH].
  - change (String.rev s2 = String.rev s2 +:+ EmptyString).
    by rewrite string_app_nil_r.
  - change (String.rev (String c (s1 +:+ s2))
            = String.rev s2 +:+ String.rev (String c s1)).
    rewrite !string_rev_cons, IH. by rewrite string_app_assoc.
Qed.

Lemma string_rev_involutive (s : string) : String.rev (String.rev s) = s.
Proof.
  induction s as [|c s IH]; [done|].
  rewrite string_rev_cons, string_rev_app, IH. done.
Qed.

Lemma all_in_cutset_app (s1 s2 cutset : string) :
  all_in_cutset (s1 +:+ s2) cutset
  = all_in_cutset s1 cutset && all_in_cutset s2 cutset.
Proof.
  induction s1 as [|c s1 IH]; [done|].
  change (String c s1 +:+ s2) with (String c (s1 +:+ s2)). simpl.
  rewrite IH. by rewrite andb_assoc.
Qed.

Lemma all_in_cutset_rev (s cutset : string) :
  all_in_cutset (String.rev s) cutset = all_in_cutset s cutset.
Proof.
  induction s as [|c s IH]; [done|].
  rewrite string_rev_cons, all_in_cutset_app, IH. simpl.
  rewrite andb_true_r. apply andb_comm.
Qed.

Lemma starts_in_cutset_prefix (t q cutset : string) :
  starts_in_cutset (t +:+ q) cutset = false ->
  starts_in_cutset t cutset = false.
Proof. by destruct t. Qed.

Lemma Trim_split (s cutset : string) :
  (exists p,
     s = p +:+ TrimLeft s cutset
     /\ all_in_cutset p cutset = true
     /\ starts_in_cutset (TrimLeft s cutset) cutset = false)
  /\ (exists q,
     s = TrimRight s cutset +:+ q
     /\ all_in_cutset q cutset = true
     /\ ends_in_cutset (TrimRight s cutset) cutset = false).
Proof.
  assert (Hleft : forall s, exists p,
            s = p +:+ TrimLeft s cutset
            /\ all_in_cutset p cutset = true
            /\ starts_in_cutset (TrimLeft s cutset) cutset = false).
  { clear s. induction s as [|c s (p & Hs & Hp & Hstart)].
    - by exists EmptyString.
    - simpl. destruct (in_cutset c cutset) eqn:Hc.
      + exists (String c p).
        change (String c p +:+ TrimLeft s cutset)
          with (String c (p +:+ TrimLeft s cutset)).
        rewrite <- Hs. simpl. by rewrite Hc, Hp.
      + exists EmptyString. simpl. by rewrite Hc. }
  split; [apply Hleft|].
  destruct (Hleft (String.rev s)) as (p & Hs & Hp & Hstart).
  exists (String.rev p). unfold TrimRight, ends_in_cutset.
  rewrite string_rev_involutive, all_in_cutset_rev.
  split; [|done].
  rewrite <- string_rev_app, <- Hs. by rewrite string_rev_involutive.
Qed.


(** ** The renderer: the cases of Visit *)

Section RendererMore.
Context {T : Types} {O : Ops}.

(** X15. On a Data node [Visit] appends to the output a piece [t] of the
    text [p t q] of the node, where [p] and [q] consist of spaces, newlines
    and tabs, [p] is empty unless the left trim is set and [q] unless the
    right trim is; with a trim set, [t] has no such character left on that
    side. Nothing else changes and no error is returned. *)
Theorem Visit_Data_trims (it : MapIter) (st : State) (r : Renderer)
    (val buf : string) (trim_left trim_right : bool) :
  builders st !! Output r = Some buf ->
  exists p t q,
    val = p +:+ t +:+ q
    /\ all_in_cutset p space_newline_tab = true
    /\ all_in_cutset q space_newline_tab = true
    /\ (trim_left = false -> p = EmptyString)
    /\ (trim_right = false -> q = EmptyString)
    /\ (trim_left = true -> starts_in_cutset t space_newline_tab = false)
    /\ (trim_right = true -> ends_in_cutset t space_newline_tab = false)
    /\ Renderer_Visit it st r (NData val trim_left trim_right)
       = Some (with_builders st (<[Output r := buf +:+ t]> (builders st)),
               (None, None)).
Proof.
  intros Hbuf. unfold Renderer_Visit, WriteString. rewrite Hbuf. simpl.
  set (ws := space_newline_tab).
  destruct (Trim_split val ws) as [(p & Hp & Hpin & Hpstart) _].
  destruct trim_left, trim_right.
  - destruct (Trim_split (TrimLeft val ws) ws)
      as [_ (q & Hq & Hqin & Hqend)].
    exists p, (TrimRight (TrimLeft val ws) ws), q.
    rewrite <- Hq, <- Hp. repeat split; try done.
    intros _. rewrite Hq in Hpstart. by eapply starts_in_cutset_prefix.
  - exists p, (TrimLeft val ws), EmptyString.
    rewrite string_app_nil_r, <- Hp. by repeat split.
  - destruct (Trim_split val ws) as [_ (q & Hq & Hqin & Hqend)].
    exists EmptyString, (TrimRight val ws), q. cbn.
    rewrite <- Hq. by repeat split.
  - exists EmptyString, val, EmptyString. cbn.
    rewrite string_app_nil_r. by repeat split.
Qed.

(** X16. When the expression chosen for an Output node evaluates to an
    error value, [Visit] writes nothing and returns that value wrapped with
    the line and the text of the primary expression of the node, also when
    the value came from the alternative. *)
Theorem Visit_Output_expression_error (it : MapIter) (st : State)
    (r : Renderer) (n : OutputNode) (e : Expression) :
  chosen_expression st r n = Some e ->
  IsError (Renderer_Eval st r e) = true ->
  Renderer_Visit it st r (NOutput n)
  = Some (st, (None,
               Some (Wrapf (ValueError (Renderer_Eval st r e))
                       "Unable to render expression at line %d: %s"
                       [EInt (Expression_Line (Output_Expression n));
                        EStr (Expression_String (Output_Expression n))]))).
Proof.
  intros Hsel Herr. rewrite (Visit_Output_chosen it st r n e Hsel).
  unfold write_value. by rewrite Herr.
Qed.

(** X17. The last branch of the Output case cannot be reached: no call of
    [Visit] returns the error "Unable to evaluation condition as boolean". *)
Theorem Visit_never_condition_as_boolean (it : MapIter) (st st' : State)
    (r : Renderer) (node : Node) (v : option Renderer) (e : error) :
  Renderer_Visit it st r node = Some (st', (v, Some e)) ->
  forall cause args,
    e <> Wrapf cause
           "Unable to evaluation condition as boolean at line %d: %s" args.
Proof.
  assert (Hwrite : forall n value,
            write_value st r n value = Some (st', (v, Some e)) ->
            forall cause args,
              e <> Wrapf cause
                     "Unable to evaluation condition as boolean at line %d: %s"
                     args).
  { intros n value. unfold write_value.
    destruct (IsError value).
    - intros [= _ _ <-] cause args. discriminate.
    - destruct (configs st !! R_Config r); simpl; [|done].
      by destruct (_ && _ && _); destruct (WriteString _ _ _). }
  destruct node as [|val l rt|n|n|]; simpl; try done.
  - by destruct (WriteString _ _ _).
  - destruct (Output_Condition n) as [cond|]; [|apply Hwrite].
    destruct (IsError (Renderer_Eval st r cond)).
    { intros [= _ _ <-] cause args. discriminate. }
    destruct (IsNil _), (IsTrue _); simpl; try apply Hwrite;
      destruct (Output_Alternative n); try apply Hwrite; done.
  - destruct (Stmt_Statement n) as [stmt|]; [|done].
    destruct (Execute stmt it r n st) as [[st1 [err|]]|]; simpl; [|done..].
    intros [= _ _ <-] cause args. discriminate.
Qed.

(** X18. Outside statement blocks [Visit] only appends to its own output:
    frames, contexts and configurations are as before, and either the state
    is unchanged or the builder of the renderer holds its earlier content
    followed by new text. *)
Theorem Visit_only_appends (it : MapIter) (st st' : State) (r : Renderer)
    (node : Node) (res : VisitResult) :
  (forall n, node <> NStatementBlock n) ->
  Renderer_Visit it st r node = Some (st', res) ->
  frames st' = frames st /\ contexts st' = contexts st
  /\ configs st' = configs st
  /\ (st' = st
      \/ exists buf out,
           builders st !! Output r = Some buf
           /\ builders st' = <[Output r := buf +:+ out]> (builders st)).
Proof.
  intros Hnode.
  assert (Hws : forall s st1,
            WriteString st (Output r) s = Some st1 ->
            frames st1 = frames st /\ contexts st1 = contexts st
            /\ configs st1 = configs st
            /\ (st1 = st
                \/ exists buf out,
                     builders st !! Output r = Some buf
                     /\ builders st1 = <[Output r := buf +:+ out]> (builders st))).
  { intros s st1. unfold WriteString.
    destruct (builders st !! Output r) as [buf|]; simpl; [|done].
    intros [= <-]. repeat split. right. by exists buf, s. }
  assert (Hwrite : forall n value,
            write_value st r n value = Some (st', res) ->
            frames st' = frames st /\ contexts st' = contexts st
            /\ configs st' = configs st
            /\ (st' = st
                \/ exists buf out,
                     builders st !! Output r = Some buf
                     /\ builders st' = <[Output r := buf +:+ out]> (builders st))).
  { intros n value. unfold write_value.
    destruct (IsError value); [intros [= <- _]; by repeat split; left|].
    destruct (configs st !! R_Config r); simpl; [|done].
    destruct (_ && _ && _);
      (destruct (WriteString _ _ _) as [st1|] eqn:Hw; simpl; [|done]);
      intros [= <- _]; by eapply Hws. }
  destruct node as [|val l rt|n|n|]; simpl.
  - intros [= <- _]. by repeat split; left.
  - destruct (WriteString _ _ _) as [st1|] eqn:Hw; simpl; [|done].
    intros [= <- _]. by eapply Hws.
  - destruct (Output_Condition n) as [cond|]; [|apply Hwrite].
    destruct (IsError (Renderer_Eval st r cond)).
    { intros [= <- _]. by repeat split; left. }
    destruct (IsNil _), (IsTrue _); simpl; try apply Hwrite;
      destruct (Output_Alternative n); try apply Hwrite;
      intros [= <- _]; by repeat split; left.
  - by destruct (Hnode n).
  - intros [= <- _]. by repeat split; left.
Qed.

End RendererMore.

(** ** Renderers and their scopes *)

Section RendererScopes.
Context {T : Types} {O : Ops}.

(** X19. A sub-renderer starts with the view of its parent and keeps its
    writes to itself: right after [r.Inherit()] every name resolves through
    the context of the sub-renderer as it does through the context of [r];
    a [Set] through the sub-renderer is found through it and changes no
    lookup through [r] or any other context that existed; and the state
    stays well-formed. *)
Theorem Renderer_Inherit_scope (st : State) (r : Renderer) (cfg : Config) :
  wf_State st = true ->
  configs st !! R_Config r = Some cfg ->
  Env_Context (R_Environment r) < length (contexts st) ->
  exists st' sub,
    Renderer_Inherit st r = Some (st', sub)
    /\ wf_State st' = true
    /\ builders st' = builders st
    /\ (forall name,
          Context_Get st' (Env_Context (R_Environment sub)) name
          = Context_Get st (Env_Context (R_Environment r)) name
          /\ Context_Has st' (Env_Context (R_Environment sub)) name
             = Context_Has st (Env_Context (R_Environment r)) name)
    /\ (forall name v, exists st2,
          Context_Set st' (Env_Context (R_Environment sub)) name v = Some st2
          /\ Context_Get st2 (Env_Context (R_Environment sub)) name = Some (v, true)
          /\ (forall c' y, c' < length (contexts st) ->
                Context_Get st2 c' y = Context_Get st c' y
                /\ Context_Has st2 c' y = Context_Has st c' y)).
Proof.
  intros Hwf Hcfg Hctx.
  unfold Renderer_Inherit, Config_Inherit. rewrite Hcfg. simpl.
  set (st1 := with_configs st (configs st ++ [cfg])).
  set (ctx := Env_Context (R_Environment r)).
  assert (Hwf1 : wf_State st1 = true) by exact Hwf.
  assert (Hk1 : forall y, keeps y st st1) by (intros y; by apply keeps_same_scopes).
  do 2 eexists. split; [reflexivity|]. simpl.
  split; [by apply (wf_State_Inherit st1)|]. split; [done|]. split.
  - intros name.
    destruct (Inherit_child_lookup st1 ctx name Hwf1 Hctx) as [Hget Hhas].
    change (contexts st1) with (contexts st) in Hget, Hhas.
    split.
    + etrans; [exact Hget|]. by apply Context_Get_keeps.
    + etrans; [exact Hhas|]. by apply Context_Has_keeps.
  - intros name v.
    pose proof (Inherit_Set_state st1 ctx name v) as Hset.
    change ((Context_Inherit st1 ctx).2) with (length (contexts st)) in Hset.
    eexists. split; [exact Hset|].
    match goal with |- context [Context_Get ?s _ _] => set (st2 := s) end.
    split.
    + unfold Context_Get.
      replace (length (contexts st2)) with (S (length (contexts st)))
        by (simpl; rewrite length_app; simpl; lia).
      apply (Get_fuel_local st2 _ _
               {| data := length (frames st); parent := Some ctx |}
               {[ name := v ]}).
      * simpl. by rewrite list_lookup_middle.
      * simpl. by rewrite list_lookup_middle.
      * apply lookup_singleton_eq.
    + intros c' y Hc'.
      assert (Hk2 : keeps y st st2).
      { split; simpl.
        - intros i c Hc. rewrite lookup_app_l; [done|]. by eapply lookup_lt_Some.
        - intros d m Hm. exists m. rewrite lookup_app_l; [done|].
          by eapply lookup_lt_Some. }
      split; [by apply Context_Get_keeps|by apply Context_Has_keeps].
Qed.

(** X20. [NewRenderer] works on a configuration of its own: the renderer
    holds a new Config struct with the settings that the caller's had at
    construction, and a later store through the caller's reference does not
    reach it. The output sink, loader, template and environment are the
    ones passed in, and the root node is the root of the template. *)
Theorem NewRenderer_config_snapshot (st : State) (environment : Environment)
    (output config : loc) (loader : Loader) (template : Template)
    (cfg : Config) (cell : Context) (fr : gmap string any) :
  configs st !! config = Some cfg ->
  contexts st !! Env_Context environment = Some cell ->
  frames st !! data cell = Some fr ->
  exists st' r,
    NewRenderer st environment output config loader template = Some (st', r)
    /\ R_Config r <> config
    /\ configs st' !! R_Config r = Some cfg
    /\ configs st' !! config = Some cfg
    /\ (forall cfg',
          configs (Config_store st' config cfg') !! R_Config r = Some cfg)
    /\ Output r = output /\ R_Loader r = loader /\ R_Template r = template
    /\ R_Environment r = environment
    /\ RootNode r = Template_root template
    /\ builders st' = builders st.
Proof.
  intros Hcfg Hcell Hfr.
  assert (Hlt : config < length (configs st)) by by eapply lookup_lt_Some.
  unfold NewRenderer, Config_Inherit, Context_Set, frame_assign.
  rewrite Hcfg. simpl. rewrite Hcell. simpl. rewrite Hfr. simpl.
  do 2 eexists. split; [reflexivity|]. simpl.
  split; [lia|]. split; [by rewrite list_lookup_middle|].
  split; [by rewrite lookup_app_l|]. split; [|done].
  intros cfg'. rewrite list_lookup_insert_ne by lia.
  by rewrite list_lookup_middle.
Qed.

End RendererScopes.

(** ** The import statements: failures, order and edge cases *)

Section ImportMore.
Context {T : Types} {O : Ops}.

(** X21. [ImportStmt.Execute] binds nothing unless it succeeds: when it
    returns an error the state is the state at entry. *)
Theorem ImportStmt_Execute_fails_without_binding (stmt : ImportStmt)
    (it : MapIter) (r : Renderer) (tag : StatementBlock) (st st' : State)
    (e : error) :
  ImportStmt_Execute stmt it r tag st = Some (st', Some e) -> st' = st.
Proof.
  unfold ImportStmt_Execute.
  destruct (IsError _); [by intros [= <- _]|].
  destruct (Loader_Inherit _ _); [|by intros [= <- _]].
  destruct (NewTemplate _ _ _ _ _); [|by intros [= <- _]].
  destruct (import_loop _ _ _ _); [|by intros [= <- _]].
  destruct (Context_Set _ _ _ _); simpl; [|done]. by intros [= _].
Qed.

(** X22. The two statements resolve their template alike: when evaluating
    the filename, deriving the loader or loading the template fails, an
    import and a from-import of the same filename expression return the
    same error and leave the state as it was. *)
Theorem import_resolve_failures_agree (s1 : ImportStmt) (s2 : FromImportStmt)
    (it1 it2 : MapIter) (r : Renderer) (tag1 tag2 : StatementBlock)
    (st : State) :
  FilenameExpression s2 = filenameExpression s1 ->
  IsError (Renderer_Eval st r (filenameExpression s1)) = true
  \/ (exists e,
        Loader_Inherit (R_Loader r)
          (Value_String (Renderer_Eval st r (filenameExpression s1))) = inr e)
  \/ (exists loader e,
        Loader_Inherit (R_Loader r)
          (Value_String (Renderer_Eval st r (filenameExpression s1))) = inl loader
        /\ NewTemplate st
             (Value_String (Renderer_Eval st r (filenameExpression s1)))
             (R_Config r) loader (R_Environment r) = inr e) ->
  exists e,
    ImportStmt_Execute s1 it1 r tag1 st = Some (st, Some e)
    /\ FromImportStmt_Execute s2 it2 r tag2 st = Some (st, Some e).
Proof.
  intros Hfile. unfold ImportStmt_Execute, FromImportStmt_Execute.
  rewrite Hfile.
  destruct (IsError _) eqn:Herr; [by eauto|].
  intros [?|[[e He]|(loader & e & Hl & Ht)]]; [done| |].
  - rewrite He. eauto.
  - rewrite Hl, Ht. eauto.
Qed.

Lemma import_loop_failure (st : State) (r : Renderer)
    (entries : list (string * MacroNode)) (acc : gmap string Macro) (e : error) :
  import_loop st r entries acc = inr e ->
  exists name node err,
    (name, node) ∈ entries /\ MacroNodeToFunc st (Some node) r = inr err.
Proof.
  revert acc. induction entries as [|[k nd] rest IH]; intros acc; simpl; [done|].
  destruct (MacroNodeToFunc st (Some nd) r) as [fn|err] eqn:Hfn.
  - intros Hloop. destruct (IH _ Hloop) as (name & node & err & Hin & Herr).
    exists name, node, err. split; [by right|done].
  - intros _. exists k, nd, err. split; [by left|done].
Qed.

(** X23. What [ImportStmt.Execute] does to the state does not depend on the
    order in which the runtime ranges over the macros of the template: with
    another order it succeeds or fails alike and leaves the same state;
    only which failing macro the error names may differ. *)
Theorem ImportStmt_Execute_any_order (stmt : ImportStmt) (it it' : MapIter)
    (r : Renderer) (tag : StatementBlock) (st st' : State)
    (err : option error) :
  ImportStmt_Execute stmt it r tag st = Some (st', err) ->
  exists err',
    ImportStmt_Execute stmt it' r tag st = Some (st', err')
    /\ (err = None <-> err' = None).
Proof.
  unfold ImportStmt_Execute.
  destruct (IsError _); [by eauto|].
  destruct (Loader_Inherit _ _) as [loader|]; [|by eauto].
  destruct (NewTemplate _ _ _ _ _) as [template|]; [|by eauto].
  destruct (import_loop st r (range it (Template_Macros template)) ∅)
    as [macros|e] eqn:Hloop;
    destruct (import_loop st r (range it' (Template_Macros template)) ∅)
      as [macros'|e'] eqn:Hloop'.
  - assert (macros' = macros) as ->; [|by eauto].
    apply import_loop_table in Hloop as [Hout Hin]; [|apply NoDup_range].
    apply import_loop_table in Hloop' as [Hout' Hin']; [|apply NoDup_range].
    apply map_eq. intros name.
    destruct (Template_Macros template !! name) as [node|] eqn:Hn.
    + destruct (Hin name node) as (fn & Hfn & ->); [by apply elem_of_range|].
      destruct (Hin' name node) as (fn' & Hfn' & ->); [by apply elem_of_range|].
      congruence.
    + rewrite Hout, Hout' by by apply not_elem_of_range. done.
  - exfalso.
    apply import_loop_table in Hloop as [_ Hin]; [|apply NoDup_range].
    apply import_loop_failure in Hloop' as (name & node & err0 & Hmem & Herr).
    apply elem_of_range in Hmem.
    destruct (Hin name node) as (fn & Hfn & _); [by apply elem_of_range|].
    congruence.
  - exfalso.
    apply import_loop_table in Hloop' as [_ Hin]; [|apply NoDup_range].
    apply import_loop_failure in Hloop as (name & node & err0 & Hmem & Herr).
    apply elem_of_range in Hmem.
    destruct (Hin name node) as (fn & Hfn & _); [by apply elem_of_range|].
    congruence.
  - intros [= <- <-]. exists (Some e'). by split.
Qed.

Lemma from_import_loop_app (r : Renderer) (imported : gmap string MacroNode)
    (l1 l2 : list (string * string)) (st st1 : State) :
  from_import_loop r imported l1 st = Some (st1, None) ->
  from_import_loop r imported (l1 ++ l2) st = from_import_loop r imported l2 st1.
Proof.
  revert st. induction l1 as [|[alias name] l1 IH]; intros st; simpl.
  - by intros [= <-].
  - destruct (MacroNodeToFunc st (imported !! name) r); [|done].
    destruct (Context_Set _ _ _ _) as [st2|]; simpl; [|done].
    apply IH.
Qed.

(** X24. [FromImportStmt.Execute] stops at the first macro that fails to
    wrap and keeps what it bound until then: if the entries visited before
    it were bound, giving state [st1], the call returns [st1] with the
    error of the failing macro wrapped under its name; every alias visited
    before is bound in the local frame, and the names not visited before,
    the failing one included, are as at entry. *)
Theorem FromImportStmt_Execute_stops_at_failure (stmt : FromImportStmt)
    (it : MapIter) (r : Renderer) (tag : StatementBlock) (st st1 : State)
    (loader : Loader) (template : Template)
    (visited rest : list (string * string)) (alias name : string) (err : error)
    (cell : Context) (fr : gmap string any) :
  IsError (Renderer_Eval st r (FilenameExpression stmt)) = false ->
  Loader_Inherit (R_Loader r)
    (Value_String (Renderer_Eval st r (FilenameExpression stmt))) = inl loader ->
  NewTemplate st (Value_String (Renderer_Eval st r (FilenameExpression stmt)))
    (R_Config r) loader (R_Environment r) = inl template ->
  range it (As stmt) = visited ++ (alias, name) :: rest ->
  from_import_loop r (Template_Macros template) visited st = Some (st1, None) ->
  MacroNodeToFunc st1 (Template_Macros template !! name) r = inr err ->
  contexts st !! Env_Context (R_Environment r) = Some cell ->
  frames st !! data cell = Some fr ->
  FromImportStmt_Execute stmt it r tag st
  = Some (st1, Some (Wrapf err "Unable to import macro '%s'" [EStr name]))
  /\ exists fr1,
       local_frame st1 (Env_Context (R_Environment r)) = Some fr1
       /\ (forall a n, (a, n) ∈ visited -> exists fn, fr1 !! a = Some (AMacro fn))
       /\ (forall k, k ∉ visited.*1 -> fr1 !! k = fr !! k)
       /\ fr1 !! alias = fr !! alias.
Proof.
  intros Herr Hl Ht Hrange Hvisited Hfail Hcell Hfr.
  assert (Hnd : NoDup (visited ++ (alias, name) :: rest).*1).
  { rewrite <- Hrange. apply NoDup_range. }
  rewrite fmap_app, fmap_cons in Hnd.
  apply NoDup_app in Hnd as (Hnd_visited & Hdisj & _).
  split.
  - unfold FromImportStmt_Execute. rewrite Herr, Hl, Ht, Hrange.
    rewrite (from_import_loop_app _ _ _ _ _ _ Hvisited). simpl.
    by rewrite Hfail.
  - destruct (from_import_loop_bindings _ _ _ _ _ cell fr Hnd_visited Hcell Hfr
                Hvisited) as (fr1 & -> & Hout & Hin).
    exists fr1. split; [|split; [|split]].
    + unfold local_frame. simpl. rewrite Hcell. simpl.
      apply list_lookup_insert_eq. by eapply lookup_lt_Some.
    + intros a n Hmem. destruct (Hin a n Hmem) as (fn & _ & _ & Hfn). eauto.
    + done.
    + apply Hout. intros Hmem. apply (Hdisj alias Hmem). simpl. by left.
Qed.

Lemma range_empty {V : Type} (it : MapIter) : range it (∅ : gmap string V) = [].
Proof.
  apply Permutation_nil_r. rewrite (range_perm it V ∅).
  by rewrite map_to_list_empty.
Qed.

Lemma range_singleton {V : Type} (it : MapIter) (k : string) (v : V) :
  range it ({[ k := v ]} : gmap string V) = [(k, v)].
Proof.
  apply Permutation_singleton_r. rewrite (range_perm it V _).
  by rewrite map_to_list_singleton.
Qed.

(** X25. With nothing to import both statements still succeed: an import of
    a template without macros binds its alias to an empty table, and a
    from-import with no names leaves the state as it was. *)
Theorem import_of_nothing (it : MapIter) (r : Renderer) (tag : StatementBlock)
    (st : State) (cell : Context) (fr : gmap string any) :
  contexts st !! Env_Context (R_Environment r) = Some cell ->
  frames st !! data cell = Some fr ->
  (forall (stmt : ImportStmt) loader template,
     IsError (Renderer_Eval st r (filenameExpression stmt)) = false ->
     Loader_Inherit (R_Loader r)
       (Value_String (Renderer_Eval st r (filenameExpression stmt))) = inl loader ->
     NewTemplate st (Value_String (Renderer_Eval st r (filenameExpression stmt)))
       (R_Config r) loader (R_Environment r) = inl template ->
     Template_Macros template = ∅ ->
     ImportStmt_Execute stmt it r tag st
     = Some (with_frames st
               (<[data cell := <[as_ stmt := AMacros ∅]> fr]> (frames st)),
             None))
  /\ (forall (stmt : FromImportStmt) loader template,
     IsError (Renderer_Eval st r (FilenameExpression stmt)) = false ->
     Loader_Inherit (R_Loader r)
       (Value_String (Renderer_Eval st r (FilenameExpression stmt))) = inl loader ->
     NewTemplate st (Value_String (Renderer_Eval st r (FilenameExpression stmt)))
       (R_Config r) loader (R_Environment r) = inl template ->
     As stmt = ∅ ->
     FromImportStmt_Execute stmt it r tag st = Some (st, None)).
Proof.
  intros Hcell Hfr. split.
  - intros stmt loader template Herr Hl Ht Hempty.
    unfold ImportStmt_Execute. rewrite Herr, Hl, Ht, Hempty, range_empty. simpl.
    unfold Context_Set, frame_assign. rewrite Hcell. simpl. by rewrite Hfr.
  - intros stmt loader template Herr Hl Ht Hempty.
    unfold FromImportStmt_Execute.
    by rewrite Herr, Hl, Ht, Hempty, range_empty.
Qed.

(** X26. [FromImportStmt.Execute] does not check that the template has the
    macro it is asked for: for a name the template lacks it hands a nil
    node to [MacroNodeToFunc], and what that returns decides the call, a
    binding of the alias or the wrapped error. *)
Theorem FromImportStmt_Execute_missing_macro (stmt : FromImportStmt)
    (it : MapIter) (r : Renderer) (tag : StatementBlock) (st : State)
    (loader : Loader) (template : Template) (alias name : string)
    (cell : Context) (fr : gmap string any) :
  IsError (Renderer_Eval st r (FilenameExpression stmt)) = false ->
  Loader_Inherit (R_Loader r)
    (Value_String (Renderer_Eval st r (FilenameExpression stmt))) = inl loader ->
  NewTemplate st (Value_String (Renderer_Eval st r (FilenameExpression stmt)))
    (R_Config r) loader (R_Environment r) = inl template ->
  As stmt = {[ alias := name ]} ->
  Template_Macros template !! name = None ->
  contexts st !! Env_Context (R_Environment r) = Some cell ->
  frames st !! data cell = Some fr ->
  FromImportStmt_Execute stmt it r tag st
  = match MacroNodeToFunc st None r with
    | inl fn =>
        Some (with_frames st
                (<[data cell := <[alias := AMacro fn]> fr]> (frames st)), None)
    | inr err =>
        Some (st, Some (Wrapf err "Unable to import macro '%s'" [EStr name]))
    end.
Proof.
  intros Herr Hl Ht Has Hmissing Hcell Hfr.
  unfold FromImportStmt_Execute.
  rewrite Herr, Hl, Ht, Has, range_singleton. simpl. rewrite Hmissing.
  destruct (MacroNodeToFunc st None r) as [fn|err]; [|done].
  unfold Context_Set, frame_assign. rewrite Hcell. simpl. by rewrite Hfr.
Qed.

End ImportMore.

(** ** Execute: the choice of the root *)

Section WalkFacts.
Context {T : Types}.
Variable Parent : TemplateNode -> option TemplateNode.
Variable Walk_Template :
  Renderer -> TemplateNode -> State -> option (State * option error).

Lemma root_of_nth_parent (fuel k : nat) (n root : TemplateNode) :
  nth_parent Parent k n = Some root -> Parent root = None -> k < fuel ->
  root_of Parent fuel n = Some root.
Proof.
  revert k n. induction fuel as [|fuel IH]; intros k n Hk Hroot Hlt; [lia|].
  destruct k as [|k]; simpl in *.
  - injection Hk as ->. by rewrite Hroot.
  - destruct (Parent n) as [p|]; [|done]. simpl in Hk.
    apply (IH k); [done..|lia].
Qed.

Lemma root_of_inv (fuel : nat) (n root : TemplateNode) :
  root_of Parent fuel n = Some root ->
  exists k, k < fuel /\ nth_parent Parent k n = Some root /\ Parent root = None.
Proof.
  revert n. induction fuel as [|fuel IH]; intros n; simpl; [done|].
  destruct (Parent n) as [p|] eqn:Hp.
  - intros Hroot. destruct (IH p Hroot) as (k & Hk & Hnth & Hnone).
    exists (S k). split; [lia|]. simpl. by rewrite Hp.
  - intros [= <-]. exists 0. split; [lia|]. done.
Qed.

(** X27. [Execute] walks the top of the inheritance chain: when following
    the parent links from the root node of the renderer ends at a node
    without parent, that node is the one handed to the walk, however much
    fuel remains; and whenever [Execute] returns, what it returns is the
    result of walking such a node. *)
Theorem Renderer_Execute_walks_top_ancestor (fuel : nat) (r : Renderer)
    (st : State) :
  (forall k root,
     nth_parent Parent k (RootNode r) = Some root ->
     Parent root = None -> k < fuel ->
     Renderer_Execute Parent Walk_Template fuel r st = Walk_Template r root st)
  /\ (forall res,
     Renderer_Execute Parent Walk_Template fuel r st = Some res ->
     exists k root,
       k < fuel /\ nth_parent Parent k (RootNode r) = Some root
       /\ Parent root = None /\ Walk_Template r root st = Some res).
Proof.
  unfold Renderer_Execute. split.
  - intros k root Hk Hroot Hlt.
    by rewrite (root_of_nth_parent fuel k _ root).
  - intros res.
    destruct (root_of Parent fuel (RootNode r)) as [root|] eqn:Hroot; [|done].
    simpl. intros Hwalk.
    destruct (root_of_inv _ _ _ Hroot) as (k & Hk & Hnth & Hnone).
    by exists k, root.
Qed.

End WalkFacts.

(** ** Concrete runs of the further properties *)

Lemma Context_Set_then_Get_witness :
  Context_Set Demo.st0 2 "n" (Demo.dyn 5)
  = Some (with_frames Demo.st0 (<[2 := {[ "n" := Demo.dyn 5 ]}]> (frames Demo.st0)))
  /\ Context_Get
       (with_frames Demo.st0 (<[2 := {[ "n" := Demo.dyn 5 ]}]> (frames Demo.st0)))
       2 "n" = Some (Demo.dyn 5, true).
Proof.
  split; [vm_compute; reflexivity|].
  apply (Context_Set_then_Get Demo.st0 _ 2 "n" (Demo.dyn 5)).
  vm_compute; reflexivity.
Defined.

Lemma Context_Set_other_names_witness :
  wf_State Demo.st0 = true
  /\ Context_Get
       (with_frames Demo.st0 (<[1 := {[ "y" := Demo.dyn 8 ]}]> (frames Demo.st0)))
       2 "x" = Context_Get Demo.st0 2 "x".
Proof.
  split; [reflexivity|].
  destruct (Context_Set_other_names (T := Demo.types) Demo.st0
              (with_frames Demo.st0
                 (<[1 := {[ "y" := Demo.dyn 8 ]}]> (frames Demo.st0)))
              1 "y" (Demo.dyn 8))
    as (_ & _ & _ & Hother); [reflexivity|vm_compute; reflexivity|].
  apply Hother; [discriminate|simpl; lia].
Defined.

Lemma Context_Inherit_resolves_as_parent_witness :
  wf_State Demo.st0 = true
  /\ Context_Get (Context_Inherit Demo.st0 1).1 (Context_Inherit Demo.st0 1).2 "x"
     = Context_Get Demo.st0 1 "x".
Proof.
  split; [reflexivity|].
  destruct (Context_Inherit_resolves_as_parent (T := Demo.types) Demo.st0 1)
    as (_ & Hsame & _); [reflexivity|simpl; lia|].
  apply Hsame.
Defined.

Lemma Context_parent_Set_seen_by_child_witness :
  wf_State Demo.st0 = true
  /\ exists st2,
       Context_Set (Context_Inherit Demo.st0 3).1 3 "late" (Demo.dyn 6) = Some st2
       /\ Context_Get st2 (Context_Inherit Demo.st0 3).2 "late"
          = Some (Demo.dyn 6, true).
Proof.
  split; [reflexivity|].
  destruct (Context_Set (Context_Inherit Demo.st0 3).1 3 "late" (Demo.dyn 6))
    as [st2|] eqn:Hset; [|vm_compute in Hset; discriminate Hset].
  exists st2. split; [reflexivity|].
  apply (Context_parent_Set_seen_by_child (T := Demo.types) Demo.st0 st2 3
           "late" (Demo.dyn 6)); [reflexivity|simpl; lia|exact Hset].
Defined.

Lemma Context_Get_Has_agree_witness :
  wf_State Demo.st0 = true
  /\ exists v b,
       Context_Get Demo.st0 2 "y" = Some (v, b)
       /\ Context_Has Demo.st0 2 "y" = Some b.
Proof.
  split; [reflexivity|].
  destruct (Context_Get_Has_agree (T := Demo.types) Demo.st0 2 "y")
    as (v & b & Hget & Hhas & _); [reflexivity|simpl; lia|].
  exists v, b. auto.
Defined.

Lemma NewContext_shares_map_witness :
  frames Demo.st0 !! 3 = Some {[ "k" := Demo.dyn 4 ]}
  /\ exists st2,
       Context_Set (NewContext Demo.st0 3).1 (NewContext Demo.st0 3).2
         "n" (Demo.dyn 5) = Some st2
       /\ Context_Get st2 3 "n" = Some (Demo.dyn 5, true).
Proof.
  split; [reflexivity|].
  destruct (NewContext_shares_map (T := Demo.types) Demo.st0 3
              {[ "k" := Demo.dyn 4 ]} "n" (Demo.dyn 5) eq_refl)
    as (_ & st2 & Hset & _ & Hseen).
  exists st2. split; [exact Hset|].
  apply (Hseen 3 {| data := 3; parent := None |}); reflexivity.
Defined.

Lemma Context_Update_nothing_to_copy_witness :
  Context_Update Demo.forwards Demo.st0 1 2 = Some (Demo.st0, 1)
  /\ Context_Update Demo.forwards Demo.st0 1 1 = Some (Demo.st0, 1).
Proof.
  split.
  - apply (Context_Update_nothing_to_copy (T := Demo.types) Demo.forwards
             Demo.st0 1 2 {| data := 1; parent := Some 0 |}
             {| data := 2; parent := Some 1 |} {[ "y" := Demo.dyn 3 ]} ∅);
      try reflexivity. by left.
  - apply (Context_Update_nothing_to_copy (T := Demo.types) Demo.forwards
             Demo.st0 1 1 {| data := 1; parent := Some 0 |}
             {| data := 1; parent := Some 0 |} {[ "y" := Demo.dyn 3 ]}
             {[ "y" := Demo.dyn 3 ]});
      try reflexivity. by right.
Defined.

Lemma Context_Update_idempotent_witness :
  exists st1,
    Context_Update Demo.forwards Demo.st0 3 1 = Some (st1, 3)
    /\ Context_Update Demo.backwards st1 3 1 = Some (st1, 3).
Proof.
  destruct (Context_Update Demo.forwards Demo.st0 3 1) as [[st1 a1]|] eqn:Hupd;
    [|vm_compute in Hupd; discriminate Hupd].
  assert (a1 = 3) as -> by (vm_compute in Hupd; congruence).
  exists st1. split; [reflexivity|].
  apply (Context_Update_idempotent (T := Demo.types) Demo.forwards Demo.backwards
           Demo.st0 st1 3 1 3 {| data := 3; parent := None |}
           {| data := 1; parent := Some 0 |}
           {[ "k" := Demo.dyn 4 ]} {[ "y" := Demo.dyn 3 ]});
    try reflexivity. exact Hupd.
Defined.

Lemma Context_operations_keep_wf_witness :
  wf_State Demo.st0 = true
  /\ wf_State (Context_Inherit Demo.st0 2).1 = true
  /\ wf_State (EmptyContext Demo.st0).1 = true.
Proof.
  split; [reflexivity|].
  destruct (Context_operations_keep_wf (T := Demo.types) Demo.st0 eq_refl)
    as (_ & Hempty & Hinherit & _).
  split; [apply Hinherit; simpl; lia|exact Hempty].
Defined.

Lemma Register_then_Register_and_Replace_witness :
  Demo.registries !! 0 = Some {[ "upper" := 1 ]}
  /\ exists st1,
       Register "taken" Demo.registries 0 "title" 7 = Some (st1, None)
       /\ Register "taken" st1 0 "title" 8
          = Some (st1, Some (RegErrorf "taken" [ArgStr "title"])).
Proof.
  split; [reflexivity|].
  destruct (Register_then_Register_and_Replace "taken" "missing" Demo.registries
              0 {[ "upper" := 1 ]} "title" 7 8 eq_refl eq_refl)
    as (_ & _ & st1 & Hreg & _ & _ & Hagain & _).
  exists st1. auto.
Defined.

Lemma Register_Replace_touch_one_name_witness :
  Register "taken" Demo.registries 0 "title" 7
  = Some (<[0 := {[ "upper" := 1; "title" := 7 ]}]> Demo.registries, None)
  /\ <[0 := {[ "upper" := 1; "title" := 7 ]}]> Demo.registries !! 1
     = Demo.registries !! 1.
Proof.
  split; [vm_compute; reflexivity|].
  destruct (Register_Replace_touch_one_name "taken" "missing" Demo.registries
              (<[0 := {[ "upper" := 1; "title" := 7 ]}]> Demo.registries)
              0 "title" 7 None) as (_ & _ & Hother & _).
  - left. vm_compute; reflexivity.
  - apply Hother. discriminate.
Defined.

Lemma Update_merge_laws_witness :
  Demo.registries !! 0 = Some {[ "upper" := 1 ]}
  /\ Update Demo.forwards Demo.registries 0 1
     = Update Demo.backwards Demo.registries 0 1
  /\ Update Demo.forwards Demo.registries 0 0 = Some (Demo.registries, 0).
Proof.
  split; [reflexivity|].
  destruct (Update_merge_laws Demo.forwards Demo.backwards Demo.registries 0 1
              {[ "upper" := 1 ]} {[ "upper" := 2; "lower" := 3 ]}
              eq_refl eq_refl) as (Horder & Hself & _).
  auto.
Defined.

Lemma Visit_Data_trims_witness :
  builders Demo.st0 !! Output Demo.r0 = Some EmptyString
  /\ exists p t q,
       "  hello  " = p +:+ t +:+ q
       /\ Renderer_Visit (O := Demo.ops) Demo.forwards Demo.st0 Demo.r0
            (NData "  hello  " true true)
          = Some (with_builders Demo.st0
                    (<[Output Demo.r0 := EmptyString +:+ t]> (builders Demo.st0)),
                  (None, None)).
Proof.
  split; [reflexivity|].
  destruct (Visit_Data_trims (O := Demo.ops) Demo.forwards Demo.st0 Demo.r0
              "  hello  " EmptyString true true eq_refl)
    as (p & t & q & Hsplit & _ & _ & _ & _ & _ & _ & Hvisit).
  exists p, t, q. auto.
Defined.

Lemma Visit_Output_expression_error_witness :
  chosen_expression (O := Demo.ops) Demo.st0 Demo.r0 Demo.out_alt_error
  = Some (Demo.Err "no alternative")
  /\ Renderer_Visit (O := Demo.ops) Demo.forwards Demo.st0 Demo.r0
       (NOutput Demo.out_alt_error)
     = Some (Demo.st0,
             (None,
              Some (Wrapf (ValueError (T := Demo.types) (Demo.Err "no alternative"))
                      "Unable to render expression at line %d: %s"
                      [EInt 1%Z; EStr "shown"]))).
Proof.
  split; [reflexivity|].
  apply (Visit_Output_expression_error (O := Demo.ops) Demo.forwards Demo.st0
           Demo.r0 Demo.out_alt_error (Demo.Err "no alternative"));
    reflexivity.
Defined.

Lemma Visit_never_condition_as_boolean_witness :
  Renderer_Visit (O := Demo.ops) Demo.forwards Demo.st0 Demo.r0
    (NOutput Demo.out_error)
  = Some (Demo.st0,
          (None, Some (Wrapf (ValueError (T := Demo.types) (Demo.Err "boom"))
                         "Unable to render condition at line %d: %s"
                         [EInt 1%Z; EStr "boom"])))
  /\ Wrapf (ValueError (T := Demo.types) (Demo.Err "boom"))
       "Unable to render condition at line %d: %s" [EInt 1%Z; EStr "boom"]
     <> Wrapf (ValueError (T := Demo.types) (Demo.Err "boom"))
          "Unable to evaluation condition as boolean at line %d: %s"
          [EInt 1%Z; EStr "boom"].
Proof.
  split; [reflexivity|].
  apply (Visit_never_condition_as_boolean (O := Demo.ops) Demo.forwards
           Demo.st0 Demo.st0 Demo.r0 (NOutput Demo.out_error) None).
  reflexivity.
Defined.

Lemma Visit_only_appends_witness :
  Renderer_Visit (O := Demo.ops) Demo.forwards Demo.st0 Demo.r0
    (NOutput Demo.out_bold)
  = Some (with_builders Demo.st0 [ "&lt;b&gt;" ], (None, None))
  /\ frames (with_builders Demo.st0 [ "&lt;b&gt;" ]) = frames Demo.st0.
Proof.
  split; [reflexivity|].
  destruct (Visit_only_appends (O := Demo.ops) Demo.forwards Demo.st0
              (with_builders Demo.st0 [ "&lt;b&gt;" ]) Demo.r0
              (NOutput Demo.out_bold) (None, None)) as (Hframes & _).
  - discriminate.
  - reflexivity.
  - exact Hframes.
Defined.

Lemma Renderer_Inherit_scope_witness :
  wf_State Demo.st0 = true
  /\ exists st' sub,
       Renderer_Inherit (T := Demo.types) Demo.st0 Demo.r0 = Some (st', sub)
       /\ wf_State st' = true
       /\ Context_Get st' (Env_Context (R_Environment sub)) "x"
          = Context_Get Demo.st0 (Env_Context (R_Environment Demo.r0)) "x".
Proof.
  split; [reflexivity|].
  destruct (Renderer_Inherit_scope (T := Demo.types) Demo.st0 Demo.r0 Demo.cfg0)
    as (st' & sub & Hinh & Hwf & _ & Hsame & _);
    [reflexivity|reflexivity|simpl; lia|].
  exists st', sub. split; [exact Hinh|]. split; [exact Hwf|]. apply Hsame.
Defined.

Lemma NewRenderer_config_snapshot_witness :
  configs Demo.st0 !! 0 = Some Demo.cfg0
  /\ exists st' r,
       NewRenderer (O := Demo.ops) Demo.st0 Demo.env0 0 0 "loader" Demo.lib
       = Some (st', r)
       /\ R_Config r <> 0
       /\ configs st' !! R_Config r = Some Demo.cfg0.
Proof.
  split; [reflexivity|].
  destruct (NewRenderer_config_snapshot (O := Demo.ops) Demo.st0 Demo.env0 0 0
              "loader" Demo.lib Demo.cfg0 {| data := 2; parent := Some 1 |} ∅)
    as (st' & r & Hnew & Hne & Hcfg & _); try reflexivity.
  exists st', r. auto.
Defined.

Lemma ImportStmt_Execute_fails_without_binding_witness :
  exists e,
    ImportStmt_Execute (O := Demo.ops) Demo.import_broken Demo.forwards Demo.r0 ()
      Demo.st0 = Some (Demo.st0, Some e).
Proof.
  destruct (ImportStmt_Execute (O := Demo.ops) Demo.import_broken Demo.forwards
              Demo.r0 () Demo.st0) as [[st' [e|]]|] eqn:Hexec;
    [|vm_compute in Hexec; discriminate Hexec..].
  exists e.
  by rewrite (ImportStmt_Execute_fails_without_binding (O := Demo.ops)
                Demo.import_broken Demo.forwards Demo.r0 () Demo.st0 st' e Hexec).
Defined.

Lemma import_resolve_failures_agree_witness :
  exists e,
    ImportStmt_Execute (O := Demo.ops) Demo.import_nolib Demo.forwards Demo.r0 ()
      Demo.st0 = Some (Demo.st0, Some e)
    /\ FromImportStmt_Execute (O := Demo.ops) Demo.from_nolib Demo.backwards
         Demo.r0 () Demo.st0 = Some (Demo.st0, Some e).
Proof.
  apply (import_resolve_failures_agree (O := Demo.ops) Demo.import_nolib
           Demo.from_nolib Demo.forwards Demo.backwards Demo.r0 () () Demo.st0
           eq_refl).
  right. right. exists "loader", (ErrorNew "template not found").
  split; reflexivity.
Defined.

Lemma ImportStmt_Execute_any_order_witness :
  exists st' err',
    ImportStmt_Execute (O := Demo.ops) Demo.import_lib Demo.forwards Demo.r0 ()
      Demo.st0 = Some (st', None)
    /\ ImportStmt_Execute (O := Demo.ops) Demo.import_lib Demo.backwards Demo.r0 ()
         Demo.st0 = Some (st', err').
Proof.
  destruct (ImportStmt_Execute (O := Demo.ops) Demo.import_lib Demo.forwards
              Demo.r0 () Demo.st0) as [[st' [e|]]|] eqn:Hexec;
    [vm_compute in Hexec; discriminate Hexec| |
     vm_compute in Hexec; discriminate Hexec].
  destruct (ImportStmt_Execute_any_order (O := Demo.ops) Demo.import_lib
              Demo.forwards Demo.backwards Demo.r0 () Demo.st0 st' None Hexec)
    as (err' & Hexec' & _).
  exists st', err'. auto.
Defined.

Lemma FromImportStmt_Execute_stops_at_failure_witness :
  range Demo.forwards (As Demo.from_broken) = [("foo", "foo")] ++ ("bad", "bad") :: []
  /\ FromImportStmt_Execute (O := Demo.ops) Demo.from_broken Demo.forwards
       Demo.r0 () Demo.st0
     = Some (Demo.st_foo,
             Some (Wrapf (ErrorNew "Unable to evaluate parameter")
                     "Unable to import macro '%s'" [EStr "bad"])).
Proof.
  split; [vm_compute; reflexivity|].
  apply (FromImportStmt_Execute_stops_at_failure (O := Demo.ops) Demo.from_broken
           Demo.forwards Demo.r0 () Demo.st0 Demo.st_foo "loader" Demo.broken
           [("foo", "foo")] [] "bad" "bad"
           (ErrorNew "Unable to evaluate parameter")
           {| data := 2; parent := Some 1 |} ∅);
    vm_compute; reflexivity.
Defined.

Lemma import_of_nothing_witness :
  ImportStmt_Execute (O := Demo.ops_bare) Demo.import_lib Demo.forwards Demo.r0 ()
    Demo.st0
  = Some (with_frames Demo.st0
            (<[2 := <["L" := AMacros ∅]> ∅]> (frames Demo.st0)), None)
  /\ FromImportStmt_Execute (O := Demo.ops) Demo.from_lib_nothing Demo.forwards
       Demo.r0 () Demo.st0 = Some (Demo.st0, None).
Proof.
  split.
  - destruct (import_of_nothing (O := Demo.ops_bare) Demo.forwards Demo.r0 ()
                Demo.st0 {| data := 2; parent := Some 1 |} ∅ eq_refl eq_refl)
      as [Himport _].
    apply (Himport Demo.import_lib "loader" ∅); reflexivity.
  - destruct (import_of_nothing (O := Demo.ops) Demo.forwards Demo.r0 ()
                Demo.st0 {| data := 2; parent := Some 1 |} ∅ eq_refl eq_refl)
      as [_ Hfrom].
    apply (Hfrom Demo.from_lib_nothing "loader" Demo.lib); reflexivity.
Defined.

Lemma FromImportStmt_Execute_missing_macro_witness :
  Template_Macros (Ops := Demo.ops) Demo.lib !! "nope" = None
  /\ FromImportStmt_Execute (O := Demo.ops) Demo.from_lib_nope Demo.forwards
       Demo.r0 () Demo.st0
     = Some (Demo.st0,
             Some (Wrapf (ErrorNew "nil macro")
                     "Unable to import macro '%s'" [EStr "nope"])).
Proof.
  split; [reflexivity|].
  apply (FromImportStmt_Execute_missing_macro (O := Demo.ops) Demo.from_lib_nope
           Demo.forwards Demo.r0 () Demo.st0 "loader" Demo.lib "nope" "nope"
           {| data := 2; parent := Some 1 |} ∅);
    reflexivity.
Defined.

Lemma Renderer_Execute_walks_top_ancestor_witness :
  nth_parent (T := Demo.types) Demo.parent_of 1 (RootNode Demo.r_child)
  = Some "base"
  /\ Renderer_Execute (T := Demo.types) Demo.parent_of Demo.walk_nothing 5
       Demo.r_child Demo.st0
     = Demo.walk_nothing Demo.r_child "base" Demo.st0.
Proof.
  split; [reflexivity|].
  destruct (Renderer_Execute_walks_top_ancestor (T := Demo.types) Demo.parent_of
              Demo.walk_nothing 5 Demo.r_child Demo.st0) as [Hwalk _].
  apply (Hwalk 1 "base"); [reflexivity|reflexivity|lia].
Defined.
